(** * radar-admin: the item form's data-shape transformations

    A shallow embedding of
    - [src/components/radars/form/utils.ts]
      ([formatFieldsToObjects], [formatFieldsToArray], [MAX_RINGS],
      [MAX_QUADRANTS]),
    - [src/components/radars/form/RingFields.tsx] and [QuadrantFields.tsx]
      (the guarded append buttons),
    - [src/components/radars/form/item/RadarItemForm.tsx]
      (the reconciliation effect, [handleRadarChange], [formSubmit] and the
      append / remove controls of the association rows),
    together with the properties of these functions.

    Radar ids, quadrant names and labels are JavaScript strings.  Plain
    objects used as dictionaries ([RadarsMap], [ItemRadarsMap]) are modelled
    with the order of their own properties, because the form rows are
    produced from [Object.keys]. *)

From Stdlib Require Import NArith Ascii String.
From stdpp Require Import base decidable option list strings sorting.

(** ** JavaScript plain objects *)

Module Js.

(** Truthiness of a string-typed value that may be [undefined]:
    [undefined] and [''] are falsy. *)
Definition truthy (v : option string) : bool :=
  match v with
  | None => false
  | Some s => negb (String.eqb s "")
  end.

(** The own enumerable properties of an object literal, in creation
    order.  Every key occurs at most once. *)
Definition object (V : Type) : Type := list (string * V).

Definition own_keys {V} (o : object V) : list string := o.*1.

Fixpoint own_get {V} (o : object V) (k : string) : option V :=
  match o with
  | [] => None
  | (k', v) :: o' => if decide (k' = k) then Some v else own_get o' k
  end.

(** [o[k] = v] on an own data property: the value is replaced in place
    when [k] exists, otherwise the property is created last. *)
Fixpoint own_set {V} (o : object V) (k : string) (v : V) : object V :=
  match o with
  | [] => [(k, v)]
  | (k', v') :: o' =>
      if decide (k' = k) then (k, v) :: o' else (k', v') :: own_set o' k v
  end.

(** The properties every object literal inherits from [Object.prototype]
    (ECMAScript 2015+, with the Annex B additions browsers implement). *)
Definition object_prototype_names : list string :=
  [ "constructor"; "__defineGetter__"; "__defineSetter__";
    "hasOwnProperty"; "__lookupGetter__"; "__lookupSetter__";
    "isPrototypeOf"; "propertyIsEnumerable"; "toString"; "valueOf";
    "__proto__"; "toLocaleString" ].

Definition inherited (k : string) : bool :=
  bool_decide (k ∈ object_prototype_names).

(** The result of the property read [o[k]] on an object literal. *)
Inductive lookup (V : Type) : Type :=
| Own (v : V)      (* an own property *)
| Inherited        (* a member of [Object.prototype]: truthy, not a [V] *)
| Undefined.
Arguments Own {V} v.
Arguments Inherited {V}.
Arguments Undefined {V}.

Definition get {V} (o : object V) (k : string) : lookup V :=
  match own_get o k with
  | Some v => Own v
  | None => if inherited k then Inherited else Undefined
  end.

(** *** Array indices

    A property key is an array index when it is the canonical decimal
    form of an integer in [0, 2^32 - 2]. *)

Definition digit (a : ascii) : option N :=
  let n := N_of_ascii a in
  if ((48 <=? n) && (n <=? 57))%N then Some (n - 48)%N else None.

Fixpoint digits_value (acc : N) (s : string) : option N :=
  match s with
  | EmptyString => Some acc
  | String a s' =>
      match digit a with
      | Some d => digits_value (10 * acc + d)%N s'
      | None => None
      end
  end.

Definition array_index (k : string) : option N :=
  match k with
  | EmptyString => None
  | String "0"%char EmptyString => Some 0%N
  | String "0"%char _ => None
  | _ =>
      match digits_value 0 k with
      | Some v => if (v <? 4294967295)%N then Some v else None
      | None => None
      end
  end.

(** Ascending numeric order of the array-index keys. *)
Fixpoint insert_index (k : N * string) (l : list (N * string))
  : list (N * string) :=
  match l with
  | [] => [k]
  | h :: t => if (k.1 <=? h.1)%N then k :: h :: t else h :: insert_index k t
  end.

Definition sort_indices (l : list (N * string)) : list (N * string) :=
  foldr insert_index [] l.

Definition index_keys (ks : list string) : list (N * string) :=
  omap (λ k, (λ n, (n, k)) <$> array_index k) ks.

(** [OrdinaryOwnPropertyKeys]: array indices in ascending numeric order,
    then the other string keys in creation order. *)
Definition key_order (ks : list string) : list string :=
  (sort_indices (index_keys ks)).*2
    ++ filter (λ k, array_index k = None) ks.

(** [Object.keys(o)] *)
Definition keys {V} (o : object V) : list string := key_order (own_keys o).

(** Two array-index keys in ascending numeric order. *)
Definition index_le (a b : string) : Prop :=
  match array_index a, array_index b with
  | Some m, Some n => (m ≤ n)%N
  | _, _ => False
  end.

(** *** Completions

    A computation either returns normally or throws; the only exception
    the modelled code can raise by itself is a [TypeError] (a property
    read on [undefined]). *)
Inductive completion (A : Type) : Type :=
| Normal (a : A)
| Throw.
Arguments Normal {A} a.
Arguments Throw {A}.

Definition bind {A B} (c : completion A) (f : A → completion B)
  : completion B :=
  match c with
  | Normal a => f a
  | Throw => Throw
  end.

(** [l.reduce(f, acc)] with a callback that may throw. *)
Fixpoint reduce {A B} (f : B → A → completion B) (l : list A) (acc : B)
  : completion B :=
  match l with
  | [] => Normal acc
  | x :: l' => bind (f acc x) (reduce f l')
  end.

(** [l.map(f)] with a callback that may throw. *)
Fixpoint map_throwing {A B} (f : A → completion B) (l : list A)
  : completion (list B) :=
  match l with
  | [] => Normal []
  | x :: l' =>
      bind (f x) (λ y, bind (map_throwing f l') (λ ys, Normal (y :: ys)))
  end.

End Js.

Notation "x ←! c ; k" := (Js.bind c (λ x, k))
  (at level 20, c at level 100, k at level 200, right associativity,
   only parsing).

(** ** Data model *)

Module SelectItem.
(** The generic [{id, label}] option of the selection widgets. *)
Record t := { id : string; label : string }.
End SelectItem.

Module Radar.
Record t := {
  id : string;
  name : string;
  rings : list string;
  quadrants : list string;
}.
End Radar.

Module ItemRadar.
(** One entry of the item's flat wire list: the item occupies [quadrant]
    of the radar [id]. *)
Record t := { id : string; quadrant : string }.
End ItemRadar.

(** The tri-state wire value of [probation_result]. *)
Inductive ProbationResult := Passed | Failed | Absent.

Module RadarItem.
(** The wire shape of an item. *)
Record t := {
  id : string;
  name : string;
  description : string;
  ring : string;
  ru : bool;
  probation_result : ProbationResult;
  radars : list ItemRadar.t;
}.
End RadarItem.

(** The fetched values are plain JSON data; they are compared by content.
    The query layer keeps the identity of a result whose content has not
    changed (structural sharing), so content is what decides whether a
    dependency of the effect has changed. *)
#[global] Instance Radar_eq_dec : EqDecision Radar.t.
Proof. solve_decision. Defined.

#[global] Instance ItemRadar_eq_dec : EqDecision ItemRadar.t.
Proof. solve_decision. Defined.

#[global] Instance ProbationResult_eq_dec : EqDecision ProbationResult.
Proof. solve_decision. Defined.

#[global] Instance RadarItem_eq_dec : EqDecision RadarItem.t.
Proof. solve_decision. Defined.

Module ItemRadarsEntry.
Record t := { quadrants : list string }.
End ItemRadarsEntry.

(** [ItemRadarsMap]: radar id to the quadrants the item occupies there. *)
Definition ItemRadarsMap : Type := Js.object ItemRadarsEntry.t.

Module RadarsMap.
(** [RadarsMap]: radar id to radar.  The object starts as [{}]; the
    assignment [acc['__proto__'] = r] reaches the accessor of
    [Object.prototype] and replaces the prototype of [acc] by [r]
    instead of creating an own property, so the prototype is part of the
    state. *)
Record t := {
  own : Js.object Radar.t;
  proto : option Radar.t;   (* [None]: still [Object.prototype] *)
}.
Definition empty : t := {| own := []; proto := None |}.
End RadarsMap.

Module FormRadar.
(** One association row of the form.  [label] holds whatever the label
    expression evaluated to: a string, or [undefined] ([None]). *)
Record t := {
  radarId : string;
  label : option string;
  quadrants : list SelectItem.t;
}.
End FormRadar.

Module RadarItemFormData.
(** The form values after [reset({...item, ring, ftt_matches, radars})]:
    the item's own fields are carried over by the spread, [ring] and
    [radars] are replaced by their form shape and [ftt_matches] is
    added. *)
Record t := {
  id : string;
  name : string;
  description : string;
  ring : SelectItem.t;
  ru : bool;
  probation_result : ProbationResult;
  ftt_matches : bool;
  radars : list FormRadar.t;
}.

Definition with_radars (v : t) (rows : list FormRadar.t) : t :=
  {| id := id v; name := name v; description := description v;
     ring := ring v; ru := ru v; probation_result := probation_result v;
     ftt_matches := ftt_matches v; radars := rows |}.
End RadarItemFormData.

(** ** [form/utils.ts] *)

Definition MAX_RINGS : nat := 4.
Definition MAX_QUADRANTS : nat := 4.

Module FormField.
Record t := { value : string }.
End FormField.

Definition formatFieldsToObjects (fields : list string) : list FormField.t :=
  (λ field, {| FormField.value := field |}) <$> fields.

Definition formatFieldsToArray (fields : list FormField.t) : list string :=
  (λ f, FormField.value f) <$> fields.

(** Modelled from the spec: [formatSelectItem] of [form/utils] is imported
    by the item form but its definition is not in the sources.  It wraps a
    bare value as [{id: value, label: value}] and maps an absent value to a
    neutral empty option. *)
Definition formatSelectItem (value : option string) : SelectItem.t :=
  match value with
  | Some v => {| SelectItem.id := v; SelectItem.label := v |}
  | None => {| SelectItem.id := ""; SelectItem.label := "" |}
  end.

(** Modelled from the spec: [formatSelectData] of [form/utils] is not in
    the sources.  It maps a sequence of raw values to options in input
    order; an absent or empty input yields the empty sequence. *)
Definition formatSelectData (values : option (list string))
  : list SelectItem.t :=
  match values with
  | Some vs => (λ v, formatSelectItem (Some v)) <$> vs
  | None => []
  end.

(** Modelled from the spec: [formatProbationResult] of [form/utils] is not
    in the sources.  It collapses the tri-state flag to the boolean of the
    switch; the absent state becomes [false]. *)
Definition formatProbationResult (p : ProbationResult) : bool :=
  match p with
  | Passed => true
  | Failed => false
  | Absent => false
  end.

(** ** [RingFields.tsx], [QuadrantFields.tsx]: the guarded append button *)

Module RingFields.
(** [disabled={fields.length >= MAX_RINGS}] *)
Definition append_disabled (fields : list FormField.t) : bool :=
  (MAX_RINGS <=? length fields)%nat.

(** A click on the append button; a disabled button ignores it. *)
Definition click_append (fields : list FormField.t) : list FormField.t :=
  if append_disabled fields then fields
  else fields ++ [{| FormField.value := "" |}].

(** [remove(index)] of the field array. *)
Definition click_remove (index : nat) (fields : list FormField.t)
  : list FormField.t :=
  delete index fields.
End RingFields.

Module QuadrantFields.
(** [disabled={fields.length >= MAX_QUADRANTS}] *)
Definition append_disabled (fields : list FormField.t) : bool :=
  (MAX_QUADRANTS <=? length fields)%nat.

Definition click_append (fields : list FormField.t) : list FormField.t :=
  if append_disabled fields then fields
  else fields ++ [{| FormField.value := "" |}].

Definition click_remove (index : nat) (fields : list FormField.t)
  : list FormField.t :=
  delete index fields.
End QuadrantFields.

(** ** [form/item/utils]: helpers of the item form *)

(** Modelled from the spec: [formatItemRadar] of [form/item/utils] is not
    in the sources.  It builds the form association
    [{radarId, label, quadrants}] from its three arguments. *)
Definition formatItemRadar (radarId : string) (label : option string)
    (quadrants : list SelectItem.t) : FormRadar.t :=
  {| FormRadar.radarId := radarId; FormRadar.label := label;
     FormRadar.quadrants := quadrants |}.

(** Modelled from the spec: the flattening part of [transformItemFormData]
    ([form/item/utils], not in the sources).  Each association row becomes
    one wire pair per selected quadrant option; the label is dropped. *)
Definition flattenRadars (rows : list FormRadar.t) : list ItemRadar.t :=
  flat_map
    (λ row,
       (λ q, {| ItemRadar.id := FormRadar.radarId row;
                ItemRadar.quadrant := SelectItem.id q |})
         <$> FormRadar.quadrants row)
    rows.

Module ItemPayload.
(** The request body of [createRadarItem] / [updateRadarItem]. *)
Record t := {
  name : string;
  description : string;
  ring : string;
  ru : bool;
  ftt_matches : bool;
  radars : list ItemRadar.t;
}.
End ItemPayload.

(** Modelled from the spec: [transformItemFormData] of [form/item/utils]
    is not in the sources.  The ring option is unwrapped to its bare
    identifier, the association rows are flattened and the remaining
    form fields are passed on. *)
Definition transformItemFormData (d : RadarItemFormData.t) : ItemPayload.t :=
  {| ItemPayload.name := RadarItemFormData.name d;
     ItemPayload.description := RadarItemFormData.description d;
     ItemPayload.ring := SelectItem.id (RadarItemFormData.ring d);
     ItemPayload.ru := RadarItemFormData.ru d;
     ItemPayload.ftt_matches := RadarItemFormData.ftt_matches d;
     ItemPayload.radars := flattenRadars (RadarItemFormData.radars d) |}.

(** ** [RadarItemForm.tsx] *)

Module RadarItemForm.

(** *** The reconciliation effect (lines 78-116) *)

(** [acc[r.id] = r] *)
Definition radarsMap_add (acc : RadarsMap.t) (r : Radar.t) : RadarsMap.t :=
  if decide (Radar.id r = "__proto__")
  then {| RadarsMap.own := RadarsMap.own acc; RadarsMap.proto := Some r |}
  else {| RadarsMap.own := Js.own_set (RadarsMap.own acc) (Radar.id r) r;
          RadarsMap.proto := RadarsMap.proto acc |}.

(** [radars.reduce((acc, r) => { acc[r.id] = r; return acc }, {})] *)
Definition radarsMap_of (radars : list Radar.t) : RadarsMap.t :=
  foldl radarsMap_add RadarsMap.empty radars.

(** The property names of a radar record. *)
Definition radar_field_names : list string :=
  ["id"; "name"; "rings"; "quadrants"].

(** [radarsMap[radarId].name].  An own entry gives the radar's name.
    Otherwise the read walks the prototype chain: ['__proto__'] yields
    the prototype itself, a field name of an installed prototype radar
    yields a string or an array (whose [name] is [undefined]), a member
    of [Object.prototype] yields a function (whose [name] is the
    function's name), and any other key yields [undefined], on which the
    read of [name] throws. *)
Definition radarsMap_name (m : RadarsMap.t) (radarId : string)
  : Js.completion (option string) :=
  match Js.own_get (RadarsMap.own m) radarId with
  | Some r => Js.Normal (Some (Radar.name r))
  | None =>
      if decide (radarId = "__proto__")
      then Js.Normal (Radar.name <$> RadarsMap.proto m)
      else if bool_decide (is_Some (RadarsMap.proto m))
              && bool_decide (radarId ∈ radar_field_names)
      then Js.Normal None
      else if Js.inherited radarId
      then Js.Normal
             (Some (if decide (radarId = "constructor") then "Object"
                    else radarId))
      else Js.Throw
  end.

(** The callback of the [item.radars.reduce]:
    [acc[id] = acc[id] || { quadrants: [] }; acc[id].quadrants.push(quadrant)].
    When [id] names a member of [Object.prototype] that [acc] does not
    shadow, [acc[id]] is that (truthy) member, its [quadrants] is
    [undefined] and the [push] throws. *)
Definition itemRadarsMap_step (acc : ItemRadarsMap) (e : ItemRadar.t)
  : Js.completion ItemRadarsMap :=
  let id := ItemRadar.id e in
  acc1 ←! match Js.get acc id with
          | Js.Own entry => Js.Normal (Js.own_set acc id entry)
          | Js.Inherited => Js.Throw
          | Js.Undefined =>
              Js.Normal
                (Js.own_set acc id {| ItemRadarsEntry.quadrants := [] |})
          end;
  match Js.get acc1 id with
  | Js.Own entry =>
      Js.Normal
        (Js.own_set acc1 id
           {| ItemRadarsEntry.quadrants :=
                ItemRadarsEntry.quadrants entry ++ [ItemRadar.quadrant e] |})
  | _ => Js.Throw
  end.

Definition itemRadarsMap_of (wire : list ItemRadar.t)
  : Js.completion ItemRadarsMap :=
  Js.reduce itemRadarsMap_step wire [].

(** [Object.keys(itemRadarsMap).map((radarId) => formatItemRadar({...}))] *)
Definition formattedItemRadars (radarsMap : RadarsMap.t)
    (itemRadarsMap : ItemRadarsMap) : Js.completion (list FormRadar.t) :=
  Js.map_throwing
    (λ radarId,
       label ←! radarsMap_name radarsMap radarId;
       match Js.get itemRadarsMap radarId with
       | Js.Own entry =>
           Js.Normal
             (formatItemRadar radarId label
                (formatSelectData (Some (ItemRadarsEntry.quadrants entry))))
       | _ => Js.Throw
       end)
    (Js.keys itemRadarsMap).

(** The rows the effect computes from the catalog and the item's wire
    list ([radars] and [item.radars]). *)
Definition reconcile (radars : list Radar.t) (wire : list ItemRadar.t)
  : Js.completion (list FormRadar.t) :=
  itemRadarsMap ←! itemRadarsMap_of wire;
  formattedItemRadars (radarsMap_of radars) itemRadarsMap.

(** The state of a mounted form: the two query results, the
    [itemRadars] state variable and the form values ([fields] of the
    field array are the [radars] of the values). *)
Record state := {
  radars : option (list Radar.t);
  item : option RadarItem.t;
  itemRadars : ItemRadarsMap;
  values : RadarItemFormData.t;
}.

Definition fields (st : state) : list FormRadar.t :=
  RadarItemFormData.radars (values st).

Definition setItemRadars (m : ItemRadarsMap) (st : state) : state :=
  {| radars := radars st; item := item st; itemRadars := m;
     values := values st |}.

Definition reset (v : RadarItemFormData.t) (st : state) : state :=
  {| radars := radars st; item := item st; itemRadars := itemRadars st;
     values := v |}.

Definition set_fields (rows : list FormRadar.t) (st : state) : state :=
  reset (RadarItemFormData.with_radars (values st) rows) st.

(** What running a piece of component code leaves behind: the state, and
    whether an uncaught [TypeError] escaped (which unmounts the form). *)
Inductive outcome :=
| Done (st : state)
| Crashed (st : state).

Definition final (o : outcome) : state :=
  match o with Done st => st | Crashed st => st end.

(** The body of the [useEffect]. *)
Definition reconciliation_effect (st : state) : outcome :=
  match radars st, item st with
  | Some rs, Some it =>
      let radarsMap := radarsMap_of rs in
      match itemRadarsMap_of (RadarItem.radars it) with
      | Js.Throw => Crashed st
      | Js.Normal itemRadarsMap =>
          let st1 := setItemRadars itemRadarsMap st in
          match formattedItemRadars radarsMap itemRadarsMap with
          | Js.Throw => Crashed st1
          | Js.Normal formattedItemRadars =>
              Done
                (reset
                   {| RadarItemFormData.id := RadarItem.id it;
                      RadarItemFormData.name := RadarItem.name it;
                      RadarItemFormData.description :=
                        RadarItem.description it;
                      RadarItemFormData.ring :=
                        formatSelectItem (Some (RadarItem.ring it));
                      RadarItemFormData.ru := RadarItem.ru it;
                      RadarItemFormData.probation_result :=
                        RadarItem.probation_result it;
                      RadarItemFormData.ftt_matches :=
                        formatProbationResult
                          (RadarItem.probation_result it);
                      RadarItemFormData.radars := formattedItemRadars |}
                   st1)
          end
      end
  | _, _ => Done st
  end.

(** *** [handleRadarChange] (lines 118-133) *)

(** The three [setValue] calls on [radars.${index}.radarId], [.label] and
    [.quadrants]: together they replace the three fields of the row at
    [index].  The handler is bound to the rendered rows only, so [index]
    is below the number of rows; the model leaves the rows as they are for
    any other index. *)
Definition setRow (index : nat) (row : FormRadar.t) (st : state) : state :=
  set_fields (<[index := row]> (fields st)) st.

Definition handleRadarChange (index : nat) (selectedRadarId : option string)
    (st : state) : state :=
  match selectedRadarId, radars st with
  | Some id, Some rs =>
      if negb (Js.truthy selectedRadarId) then st
      else
        let selectedRadar :=
          List.find (λ r, bool_decide (Radar.id r = id)) rs in
        let activeQuadrants :=
          match Js.get (itemRadars st) id with
          | Js.Own entry => Some (ItemRadarsEntry.quadrants entry)
          | _ => None
          end in
        let allQuadrants :=
          match selectedRadar with
          | Some r => Radar.quadrants r
          | None => []
          end in
        let quadrants := default allQuadrants activeQuadrants in
        match selectedRadar with
        | Some r =>
            setRow index
              {| FormRadar.radarId := id;
                 FormRadar.label := Some (Radar.name r);
                 FormRadar.quadrants := formatSelectData (Some quadrants) |}
              st
        | None => st
        end
  | _, _ => st
  end.

(** *** The row controls (lines 190-242) *)

(** The rows are rendered under [radars && fields.map(...)]. *)
Definition row_rendered (st : state) (index : nat) : bool :=
  bool_decide (is_Some (radars st))
  && (index <? length (fields st))%nat.

(** [fields.length > 1 && <Button ... onClick={() => remove(index)} />] *)
Definition remove_rendered (st : state) (index : nat) : bool :=
  row_rendered st index && (1 <? length (fields st))%nat.

Definition click_remove (index : nat) (st : state) : state :=
  if remove_rendered st index
  then set_fields (delete index (fields st)) st
  else st.

(** [disabled={fields.length === radars?.length}] *)
Definition append_disabled (st : state) : bool :=
  match radars st with
  | Some rs => (length (fields st) =? length rs)%nat
  | None => false
  end.

(** [onClick={() => append({ radarId: '', label: '', quadrants: [] })}] *)
Definition click_append (st : state) : state :=
  if append_disabled st then st
  else
    set_fields
      (fields st ++ [{| FormRadar.radarId := ""; FormRadar.label := Some "";
                        FormRadar.quadrants := [] |}])
      st.

(** The radar select of a rendered row calls [handleRadarChange]. *)
Definition select_radar (index : nat) (selected : option string)
    (st : state) : state :=
  if row_rendered st index then handleRadarChange index selected st
  else st.

(** The quadrant combobox of a rendered row stores the chosen options. *)
Definition select_quadrants (index : nat) (chosen : list SelectItem.t)
    (st : state) : state :=
  if row_rendered st index
  then
    set_fields
      (alter
         (λ row, {| FormRadar.radarId := FormRadar.radarId row;
                    FormRadar.label := FormRadar.label row;
                    FormRadar.quadrants := chosen |})
         index (fields st))
      st
  else st.

(** *** The mounted form as a transition system *)

Inductive event :=
| RadarsFetched (rs : list Radar.t)   (* the ['radars'] query resolves *)
| ItemFetched (it : RadarItem.t)      (* the ['item', itemId] query resolves *)
| ClickAppend
| ClickRemove (index : nat)
| SelectRadar (index : nat) (selected : option string)
| SelectQuadrants (index : nat) (chosen : list SelectItem.t).

(** The state at mount: no query has resolved, [useState({})], and the
    form holds [defaultValues]. *)
Definition mount (defaultValues : RadarItemFormData.t) : state :=
  {| radars := None; item := None; itemRadars := [];
     values := defaultValues |}.

(** The effect has the dependencies [[item, radars, reset]]: it runs again
    when a query delivers a value that differs from the one the component
    holds, and not when the value is unchanged. *)
Definition step (st : state) (ev : event) : outcome :=
  match ev with
  | RadarsFetched rs =>
      if decide (radars st = Some rs) then Done st
      else
        reconciliation_effect
          {| radars := Some rs; item := item st; itemRadars := itemRadars st;
             values := values st |}
  | ItemFetched it =>
      if decide (item st = Some it) then Done st
      else
        reconciliation_effect
          {| radars := radars st; item := Some it;
             itemRadars := itemRadars st; values := values st |}
  | ClickAppend => Done (click_append st)
  | ClickRemove index => Done (click_remove index st)
  | SelectRadar index selected => Done (select_radar index selected st)
  | SelectQuadrants index chosen => Done (select_quadrants index chosen st)
  end.

(** The events the user causes on the form; the others are query
    results. *)
Definition user_event (ev : event) : bool :=
  match ev with
  | RadarsFetched _ | ItemFetched _ => false
  | _ => true
  end.

Fixpoint run (st : state) (evs : list event) : outcome :=
  match evs with
  | [] => Done st
  | ev :: evs' =>
      match step st ev with
      | Done st' => run st' evs'
      | Crashed st' => Crashed st'
      end
  end.

(** *** [formSubmit] (lines 135-150) *)

Inductive snackbar_status := success | alert.

(** The calls [formSubmit] makes on its collaborators, with their
    arguments. *)
Inductive call :=
| updateRadarItem (id : string) (data : ItemPayload.t)
| createRadarItem (id : string) (data : ItemPayload.t)
| console_error (prefix : string) (e : string)
| addSnackbar (message : string) (status : snackbar_status).

Definition service_request (c : call) : bool :=
  match c with
  | updateRadarItem _ _ | createRadarItem _ _ => true
  | _ => false
  end.

(** How an awaited promise settles; a rejection carries its reason. *)
Inductive settled := Resolved | Rejected (e : string).

(** Code that makes calls, in order, and may throw: it maps the calls
    made so far to the calls made after it, with its completion.  The
    service layer is the environment [srv], which settles each request. *)
Definition action (A : Type) : Type :=
  (call → settled) → list call → list call * (A + string).

Definition seq {A B} (m : action A) (k : A → action B) : action B :=
  λ srv log,
    match m srv log with
    | (log', inl a) => k a srv log'
    | (log', inr e) => (log', inr e)
    end.

(** [await request]: the request is made; a rejection is thrown. *)
Definition await (request : call) : action unit :=
  λ srv log,
    (log ++ [request],
     match srv request with
     | Resolved => inl tt
     | Rejected e => inr e
     end).

(** A call on a collaborator that returns normally. *)
Definition invoke (c : call) : action unit :=
  λ _ log, (log ++ [c], inl tt).

(** [try { body } catch (e) { handler }] *)
Definition try_catch {A} (body : action A) (handler : string → action A)
  : action A :=
  λ srv log,
    match body srv log with
    | (log', inl a) => (log', inl a)
    | (log', inr e) => handler e srv log'
    end.

Section Props.
(** The props of the component. *)
Variable radar : Radar.t.
Variable itemId : option string.

Definition formSubmit (submitData : RadarItemFormData.t) : action unit :=
  let transformedData := transformItemFormData submitData in
  try_catch
    (if Js.truthy itemId then
       seq (await (updateRadarItem (default "" itemId) transformedData))
         (λ _, invoke (addSnackbar "Элемент успешно обновлен" success))
     else
       seq (await (createRadarItem (Radar.id radar) transformedData))
         (λ _, invoke (addSnackbar "Элемент успешно создан" success)))
    (λ e,
       seq (invoke (console_error "Ошибка:" e))
         (λ _, invoke (addSnackbar "Возникла ошибка" alert))).

(** The calls of one submission, starting from an empty log. *)
Definition submission (srv : call → settled)
    (submitData : RadarItemFormData.t) : list call * (unit + string) :=
  formSubmit submitData srv [].
End Props.

End RadarItemForm.

(** ** Notions used to state the properties *)

(** The radar ids of a wire list, and of a catalog. *)
Definition wire_ids (W : list ItemRadar.t) : list string :=
  ItemRadar.id <$> W.

Definition catalog_ids (radars : list Radar.t) : list string :=
  Radar.id <$> radars.

(** Every radar id referenced by the wire list exists in the catalog. *)
Definition covers (radars : list Radar.t) (W : list ItemRadar.t) : Prop :=
  ∀ id, id ∈ wire_ids W → id ∈ catalog_ids radars.

(** No radar id of the wire list names a member of [Object.prototype]. *)
Definition plain_ids (W : list ItemRadar.t) : Prop :=
  ∀ id, id ∈ wire_ids W → Js.inherited id = false.

(** No radar id of the wire list is an array index. *)
Definition no_index_ids (W : list ItemRadar.t) : Prop :=
  ∀ id, id ∈ wire_ids W → Js.array_index id = None.

(** The distinct elements of a list in the order of their first
    appearance. *)
Fixpoint first_seen (ids : list string) : list string :=
  match ids with
  | [] => []
  | id :: ids' => id :: filter (λ k, k ≠ id) (first_seen ids')
  end.

(** The wire entries of one radar, in wire order, and their quadrants. *)
Definition group_of (k : string) (W : list ItemRadar.t) : list ItemRadar.t :=
  filter (λ e, ItemRadar.id e = k) W.

Definition quadrants_of (k : string) (W : list ItemRadar.t) : list string :=
  ItemRadar.quadrant <$> group_of k W.

(** The wire list with the entries of each radar made contiguous, radars
    in the order of their first appearance. *)
Definition contiguous_grouping (W : list ItemRadar.t) : list ItemRadar.t :=
  flat_map (λ k, group_of k W) (first_seen (wire_ids W)).

(** The association row of radar [k] that the spec describes: the label is
    the name of a catalog radar with id [k], the options are the grouped
    quadrants, each as [{id: q, label: q}]. *)
Definition row_for (radars : list Radar.t) (W : list ItemRadar.t)
    (k : string) (row : FormRadar.t) : Prop :=
  FormRadar.radarId row = k
  ∧ (∃ r, r ∈ radars ∧ Radar.id r = k
          ∧ FormRadar.label row = Some (Radar.name r))
  ∧ FormRadar.quadrants row
    = (λ q, {| SelectItem.id := q; SelectItem.label := q |})
        <$> quadrants_of k W.

(** An object whose own keys are [ks], created in that order, with the
    value [g k] under [k]. *)
Definition tabulate {V} (g : string → V) (ks : list string) : Js.object V :=
  (λ k, (k, g k)) <$> ks.

(** The [ItemRadarsMap] of a wire list, as the spec describes it. *)
Definition grouped (W : list ItemRadar.t) : ItemRadarsMap :=
  tabulate (λ k, {| ItemRadarsEntry.quadrants := quadrants_of k W |})
    (first_seen (wire_ids W)).

(** Grouping a wire list and flattening the form rows again. *)
Definition round_trip (radars : list Radar.t) (W : list ItemRadar.t)
  : Js.completion (list ItemRadar.t) :=
  rows ←! RadarItemForm.reconcile radars W;
  Js.Normal (flattenRadars rows).

(** *** Sample data *)

Module Sample.
Definition radar_one : Radar.t :=
  {| Radar.id := "1"; Radar.name := "Radar One"; Radar.rings := ["adopt"];
     Radar.quadrants := ["q1"; "q2"; "q3"] |}.
Definition radar_two : Radar.t :=
  {| Radar.id := "2"; Radar.name := "Radar Two"; Radar.rings := ["adopt"];
     Radar.quadrants := ["q3"; "q4"] |}.
Definition catalog : list Radar.t := [radar_one; radar_two].

Definition pair (id quadrant : string) : ItemRadar.t :=
  {| ItemRadar.id := id; ItemRadar.quadrant := quadrant |}.

(** The item sits in radar 2 first, then in radar 1. *)
Definition wire : list ItemRadar.t :=
  [pair "2" "q3"; pair "1" "q1"; pair "1" "q2"].

(** One entry per radar: no group has to be made contiguous. *)
Definition wire_distinct : list ItemRadar.t :=
  [pair "2" "q3"; pair "1" "q1"].

(** The scenario of the spec, with ids that are not array indices. *)
Definition radar_r1 : Radar.t :=
  {| Radar.id := "r1"; Radar.name := "Radar One"; Radar.rings := [];
     Radar.quadrants := ["q1"; "q2"; "q3"] |}.
Definition radar_r2 : Radar.t :=
  {| Radar.id := "r2"; Radar.name := "Radar Two"; Radar.rings := [];
     Radar.quadrants := ["q3"; "q4"] |}.
Definition catalog_r : list Radar.t := [radar_r1; radar_r2].
Definition wire_r : list ItemRadar.t :=
  [pair "r1" "q1"; pair "r1" "q2"; pair "r2" "q3"].

Definition item (W : list ItemRadar.t) : RadarItem.t :=
  {| RadarItem.id := "i1"; RadarItem.name := "Rocq";
     RadarItem.description := ""; RadarItem.ring := "adopt";
     RadarItem.ru := false; RadarItem.probation_result := Absent;
     RadarItem.radars := W |}.

Definition empty_row : FormRadar.t :=
  {| FormRadar.radarId := ""; FormRadar.label := Some "";
     FormRadar.quadrants := [] |}.

Definition values (rows : list FormRadar.t) : RadarItemFormData.t :=
  {| RadarItemFormData.id := ""; RadarItemFormData.name := "";
     RadarItemFormData.description := "";
     RadarItemFormData.ring := formatSelectItem None;
     RadarItemFormData.ru := false;
     RadarItemFormData.probation_result := Absent;
     RadarItemFormData.ftt_matches := false;
     RadarItemFormData.radars := rows |}.

(** A form on which the catalog of the scenario has been fetched, with
    the given [itemRadars] and association rows. *)
Definition loaded (m : ItemRadarsMap) (rows : list FormRadar.t)
  : RadarItemForm.state :=
  {| RadarItemForm.radars := Some catalog_r; RadarItemForm.item := None;
     RadarItemForm.itemRadars := m; RadarItemForm.values := values rows |}.
End Sample.

(** ** Further parts of the components *)

Module FieldArray.
(** The actions the ring and quadrant editors offer on their field array:
    the append button, and the remove button of the entry at [index]
    (rendered for every entry). *)
Inductive event :=
| Append
| Remove (index : nat).

Definition step (click_append : list FormField.t → list FormField.t)
    (click_remove : nat → list FormField.t → list FormField.t)
    (fields : list FormField.t) (ev : event) : list FormField.t :=
  match ev with
  | Append => click_append fields
  | Remove index => click_remove index fields
  end.

Definition run (click_append : list FormField.t → list FormField.t)
    (click_remove : nat → list FormField.t → list FormField.t)
    (fields : list FormField.t) (evs : list event) : list FormField.t :=
  foldl (step click_append click_remove) fields evs.
End FieldArray.

Module RadarItemFormView.
(** The [items] of the quadrant combobox of the row at [index]
    (lines 192 and 210-212):
    [formatSelectData(radars?.find((r) => r.id === radarId)?.quadrants)]
    with [radarId = watch(`radars.${index}.radarId`)]. *)
Definition quadrant_items (st : RadarItemForm.state) (index : nat)
  : list SelectItem.t :=
  let radarId := FormRadar.radarId <$> RadarItemForm.fields st !! index in
  formatSelectData
    (rs ← RadarItemForm.radars st;
     r ← List.find (λ r, bool_decide (Some (Radar.id r) = radarId)) rs;
     Some (Radar.quadrants r)).


Definition is_append (ev : RadarItemForm.event) : bool :=
  match ev with
  | RadarItemForm.ClickAppend => true
  | _ => false
  end.

(** The number of clicks on the add button in a sequence of events. *)
Definition appends (evs : list RadarItemForm.event) : nat :=
  length (filter (λ ev, is_append ev = true) evs).
End RadarItemFormView.

Module SampleMore.
(** A catalog in which two radars share an id. *)
Definition radar_r1_old : Radar.t :=
  {| Radar.id := "r1"; Radar.name := "Radar One (old)"; Radar.rings := [];
     Radar.quadrants := ["q1"] |}.
Definition catalog_dup : list Radar.t :=
  [radar_r1_old; Sample.radar_r2; Sample.radar_r1].

(** An item on a radar that the catalog [Sample.catalog_r] lacks. *)
Definition wire_missing : list ItemRadar.t :=
  [Sample.pair "r1" "q1"; Sample.pair "r9" "q1"].

Definition fetched (W : list ItemRadar.t) : RadarItemForm.state :=
  {| RadarItemForm.radars := Some Sample.catalog_r;
     RadarItemForm.item := Some (Sample.item W);
     RadarItemForm.itemRadars := [];
     RadarItemForm.values := Sample.values [Sample.empty_row] |}.
End SampleMore.

(** * Properties *)

(** ** Own properties *)

Section own_properties.
Context {V : Type}.
Implicit Types (o : Js.object V) (k : string) (v : V).

Lemma own_get_None o k : Js.own_get o k = None ↔ k ∉ Js.own_keys o.
Proof.
  unfold Js.own_keys. induction o as [|[k' v'] o IH]; simpl.
  - split; [intros _; apply not_elem_of_nil | done].
  - rewrite not_elem_of_cons. case_decide; subst.
    + split; [done | intros [? _]; done].
    + rewrite IH. split; [intros ?; split; [congruence|done] | by intros [_ ?]].
Qed.

Lemma own_get_own_set o k v k' :
  Js.own_get (Js.own_set o k v) k'
  = if decide (k = k') then Some v else Js.own_get o k'.
Proof.
  induction o as [|[k0 v0] o IH]; simpl.
  - by repeat case_decide.
  - destruct (decide (k0 = k)) as [->|Hne]; simpl.
    + by repeat case_decide.
    + rewrite IH. repeat case_decide; congruence.
Qed.

Lemma own_set_id o k v : Js.own_get o k = Some v → Js.own_set o k v = o.
Proof.
  induction o as [|[k0 v0] o IH]; simpl; [done|].
  case_decide; subst.
  - by intros [= ->].
  - intros Hget. by rewrite IH.
Qed.

Lemma own_set_own_set o k v v' :
  Js.own_set (Js.own_set o k v) k v' = Js.own_set o k v'.
Proof.
  induction o as [|[k0 v0] o IH]; simpl.
  - by case_decide.
  - destruct (decide (k0 = k)) as [->|Hne]; simpl.
    + by case_decide.
    + case_decide; [done|]. by rewrite IH.
Qed.

Lemma own_keys_tabulate (g : string → V) ks :
  Js.own_keys (tabulate g ks) = ks.
Proof.
  unfold Js.own_keys, tabulate. rewrite <- list_fmap_compose.
  apply list_fmap_id.
Qed.

Lemma own_get_tabulate (g : string → V) ks k :
  Js.own_get (tabulate g ks) k
  = if decide (k ∈ ks) then Some (g k) else None.
Proof.
  induction ks as [|k0 ks IH]; [done|].
  cbn [tabulate fmap list_fmap Js.own_get].
  destruct (decide (k0 = k)) as [->|Hne].
  - rewrite decide_True; [done | apply elem_of_cons; by left].
  - fold (tabulate g ks). rewrite IH.
    destruct (decide (k ∈ ks)) as [Hin|Hout].
    + rewrite decide_True; [done | by right].
    + rewrite decide_False; [done|].
      rewrite not_elem_of_cons. split; [congruence | done].
Qed.

Lemma tabulate_ext (g g' : string → V) ks :
  (∀ k, k ∈ ks → g k = g' k) → tabulate g ks = tabulate g' ks.
Proof.
  intros H. unfold tabulate. apply list_fmap_ext.
  intros i k Hk. f_equal. apply H. by eapply list_elem_of_lookup_2.
Qed.

Lemma own_set_fresh o k v :
  k ∉ Js.own_keys o → Js.own_set o k v = o ++ [(k, v)].
Proof.
  unfold Js.own_keys. induction o as [|[k0 v0] o IH]; simpl; [done|].
  rewrite not_elem_of_cons. intros [Hne Hout].
  rewrite decide_False; [|congruence]. by rewrite IH.
Qed.

Lemma own_set_tabulate (g g' : string → V) ks k v :
  NoDup ks → k ∈ ks → g' k = v → (∀ k', k' ≠ k → g' k' = g k') →
  Js.own_set (tabulate g ks) k v = tabulate g' ks.
Proof.
  intros Hnd Hin Hk Hother.
  induction Hnd as [|k0 ks Hout Hnd IH]; [by apply elem_of_nil in Hin|].
  simpl. destruct (decide (k0 = k)) as [->|Hne].
  - rewrite Hk. f_equal. apply tabulate_ext.
    intros k' Hk'. symmetry. apply Hother. intros ->. done.
  - rewrite Hother; [|done]. f_equal. apply IH.
    apply elem_of_cons in Hin as [?|?]; [congruence | done].
Qed.
End own_properties.

(** ** First-appearance order *)

Lemma elem_of_first_seen ids k : k ∈ first_seen ids ↔ k ∈ ids.
Proof.
  induction ids as [|id ids IH]; [done|].
  cbn [first_seen]. rewrite !elem_of_cons, list_elem_of_filter, IH.
  destruct (decide (k = id)); tauto.
Qed.

Lemma NoDup_first_seen ids : NoDup (first_seen ids).
Proof.
  induction ids as [|id ids IH]; cbn [first_seen]; [constructor|].
  constructor.
  - rewrite list_elem_of_filter. by intros [? _].
  - by apply NoDup_filter.
Qed.

Lemma first_seen_snoc ids id :
  first_seen (ids ++ [id])
  = if decide (id ∈ ids) then first_seen ids else first_seen ids ++ [id].
Proof.
  induction ids as [|id0 ids IH].
  - rewrite decide_False; [done | apply not_elem_of_nil].
  - cbn [app first_seen]. rewrite IH.
    destruct (decide (id ∈ ids)) as [Hin|Hout].
    + rewrite decide_True; [done | by right].
    + rewrite filter_app.
      destruct (decide (id = id0)) as [->|Hne].
      * rewrite decide_True; [|by left].
        rewrite filter_cons_False; [|by intros ?].
        by rewrite filter_nil, app_nil_r.
      * rewrite decide_False; [|rewrite not_elem_of_cons; done].
        rewrite filter_cons_True; [|done]. by rewrite filter_nil.
Qed.


(** ** The order of [Object.keys] *)

Lemma insert_index_perm k l : Js.insert_index k l ≡ₚ k :: l.
Proof.
  induction l as [|h t IH]; [done|].
  cbn [Js.insert_index]. destruct (k.1 <=? h.1)%N; [done|].
  rewrite IH. apply Permutation_swap.
Qed.

Lemma sort_indices_perm l : Js.sort_indices l ≡ₚ l.
Proof.
  induction l as [|k l IH]; [done|].
  cbn [Js.sort_indices foldr]. rewrite insert_index_perm.
  by constructor.
Qed.

Lemma index_keys_snd ks :
  (Js.index_keys ks).*2 = filter (λ k, ¬ Js.array_index k = None) ks.
Proof.
  induction ks as [|k ks IH]; [done|].
  unfold Js.index_keys in *. cbn [omap list_omap].
  destruct (Js.array_index k) as [n|] eqn:Hk; cbn [fmap option_fmap option_map].
  - rewrite filter_cons_True; [|by rewrite Hk].
    cbn [fmap list_fmap snd]. by f_equal.
  - rewrite filter_cons_False; [done|]. rewrite Hk. by intros ?.
Qed.

Lemma key_order_perm ks : Js.key_order ks ≡ₚ ks.
Proof.
  unfold Js.key_order. rewrite sort_indices_perm, index_keys_snd.
  rewrite (comm (++)). apply filter_app_complement.
Qed.

Lemma elem_of_key_order ks k : k ∈ Js.key_order ks ↔ k ∈ ks.
Proof. by rewrite key_order_perm. Qed.

Lemma NoDup_key_order ks : NoDup ks → NoDup (Js.key_order ks).
Proof. by rewrite key_order_perm. Qed.

(** Without array-index keys, [Object.keys] is the creation order. *)
Lemma key_order_no_index ks :
  (∀ k, k ∈ ks → Js.array_index k = None) → Js.key_order ks = ks.
Proof.
  intros Hks. unfold Js.key_order.
  assert (Js.index_keys ks = []) as ->.
  { unfold Js.index_keys. induction ks as [|k ks IH]; [done|].
    cbn [omap list_omap]. rewrite (Hks k); [|by left].
    cbn [fmap option_fmap option_map]. apply IH.
    intros k' Hk'. apply Hks. by right. }
  cbn [Js.sort_indices foldr fmap list_fmap app].
  induction ks as [|k ks IH]; [done|].
  rewrite filter_cons_True; [|apply Hks; by left].
  f_equal. apply IH. intros k' Hk'. apply Hks. by right.
Qed.

(** ** Throwing folds and maps *)

Lemma reduce_snoc {A B} (f : B → A → Js.completion B) l x acc :
  Js.reduce f (l ++ [x]) acc = Js.bind (Js.reduce f l acc) (λ b, f b x).
Proof.
  revert acc. induction l as [|y l IH]; intros acc; cbn [app Js.reduce].
  - cbn [Js.bind]. by destruct (f acc x).
  - destruct (f acc y) as [b|]; cbn [Js.bind]; [apply IH | done].
Qed.

Lemma map_throwing_Forall2 {A B} (f : A → Js.completion B)
    (R : A → B → Prop) l :
  (∀ x, x ∈ l → ∃ y, f x = Js.Normal y ∧ R x y) →
  ∃ ys, Js.map_throwing f l = Js.Normal ys ∧ Forall2 R l ys.
Proof.
  induction l as [|x l IH]; intros Hl.
  - exists []. by split; [|constructor].
  - destruct (Hl x) as (y & Hy & HR); [by left|].
    destruct IH as (ys & Hys & HRs); [intros x' ?; apply Hl; by right|].
    exists (y :: ys). cbn [Js.map_throwing]. rewrite Hy, Hys.
    by split; [|constructor].
Qed.

Lemma map_throwing_Normal {A B} (f : A → Js.completion B) l ys :
  Js.map_throwing f l = Js.Normal ys →
  Forall2 (λ x y, f x = Js.Normal y) l ys.
Proof.
  revert ys. induction l as [|x l IH]; intros ys; cbn [Js.map_throwing].
  - intros [= <-]. constructor.
  - destruct (f x) as [y|] eqn:Hx; cbn [Js.bind]; [|done].
    destruct (Js.map_throwing f l) as [ys'|]; cbn [Js.bind]; [|done].
    intros [= <-]. constructor; [done | by apply IH].
Qed.

(** ** Grouping the wire list *)

Lemma quadrants_of_snoc k W e :
  quadrants_of k (W ++ [e])
  = quadrants_of k W
      ++ (if decide (ItemRadar.id e = k) then [ItemRadar.quadrant e] else []).
Proof.
  unfold quadrants_of, group_of. rewrite filter_app, fmap_app. f_equal.
  case_decide.
  - by rewrite filter_cons_True.
  - by rewrite filter_cons_False.
Qed.

Lemma quadrants_of_absent k W : k ∉ wire_ids W → quadrants_of k W = [].
Proof.
  unfold quadrants_of, group_of, wire_ids. intros Hk.
  induction W as [|e W IH]; [done|].
  rewrite fmap_cons, not_elem_of_cons in Hk. destruct Hk as [Hne Hk].
  rewrite filter_cons_False; [by apply IH | congruence].
Qed.

(** One step of the reduce, by what [acc[id]] reads. *)
Lemma itemRadarsMap_step_spec (acc : ItemRadarsMap) e :
  RadarItemForm.itemRadarsMap_step acc e
  = match Js.own_get acc (ItemRadar.id e) with
    | Some entry =>
        Js.Normal
          (Js.own_set acc (ItemRadar.id e)
             {| ItemRadarsEntry.quadrants :=
                  ItemRadarsEntry.quadrants entry ++ [ItemRadar.quadrant e] |})
    | None =>
        if Js.inherited (ItemRadar.id e) then Js.Throw
        else
          Js.Normal
            (acc ++ [(ItemRadar.id e,
                      {| ItemRadarsEntry.quadrants := [ItemRadar.quadrant e] |})])
    end.
Proof.
  unfold RadarItemForm.itemRadarsMap_step, Js.get.
  destruct (Js.own_get acc (ItemRadar.id e)) as [entry|] eqn:Hget;
    cbn [Js.bind].
  - rewrite (own_set_id _ _ _ Hget), Hget. done.
  - destruct (Js.inherited (ItemRadar.id e)); cbn [Js.bind]; [done|].
    rewrite own_get_own_set, decide_True by done.
    rewrite own_set_own_set, own_set_fresh; [done|].
    by apply own_get_None.
Qed.

Lemma itemRadarsMap_step_grouped W e :
  RadarItemForm.itemRadarsMap_step (grouped W) e
  = if decide (ItemRadar.id e ∈ wire_ids W) then Js.Normal (grouped (W ++ [e]))
    else if Js.inherited (ItemRadar.id e) then Js.Throw
    else Js.Normal (grouped (W ++ [e])).
Proof.
  rewrite itemRadarsMap_step_spec. unfold grouped at 1.
  rewrite own_get_tabulate.
  assert (wire_ids (W ++ [e]) = wire_ids W ++ [ItemRadar.id e]) as Hids.
  { unfold wire_ids. by rewrite fmap_app. }
  destruct (decide (ItemRadar.id e ∈ wire_ids W)) as [Hin|Hout].
  - rewrite decide_True by (by apply elem_of_first_seen).
    f_equal. unfold grouped. rewrite Hids, first_seen_snoc, decide_True by done.
    apply own_set_tabulate.
    + apply NoDup_first_seen.
    + by apply elem_of_first_seen.
    + rewrite quadrants_of_snoc, decide_True; done.
    + intros k' Hk'. rewrite quadrants_of_snoc, decide_False by done.
      by rewrite app_nil_r.
  - rewrite decide_False by (by rewrite elem_of_first_seen).
    destruct (Js.inherited (ItemRadar.id e)); [done|].
    f_equal. unfold grouped.
    rewrite Hids, first_seen_snoc, decide_False by done.
    unfold tabulate. rewrite fmap_app. cbn [fmap list_fmap]. f_equal.
    + apply list_fmap_ext. intros i k Hk. f_equal.
      rewrite quadrants_of_snoc, decide_False; [by rewrite app_nil_r|].
      intros Hek. apply Hout, elem_of_first_seen. rewrite Hek.
      by eapply list_elem_of_lookup_2.
    + rewrite quadrants_of_snoc, decide_True by done.
      by rewrite quadrants_of_absent.
Qed.

(** The reduce builds the grouped map, unless a radar id names a member
    of [Object.prototype], in which case it throws. *)
Lemma itemRadarsMap_of_plain W :
  plain_ids W → RadarItemForm.itemRadarsMap_of W = Js.Normal (grouped W).
Proof.
  unfold RadarItemForm.itemRadarsMap_of.
  induction W as [|e W IH] using rev_ind; intros Hplain; [done|].
  rewrite reduce_snoc, IH.
  - cbn [Js.bind]. rewrite itemRadarsMap_step_grouped.
    case_decide; [done|]. rewrite Hplain; [done|].
    unfold wire_ids. rewrite fmap_app. apply elem_of_app. right. by left.
  - intros id Hid. apply Hplain. unfold wire_ids in *. rewrite fmap_app.
    apply elem_of_app. by left.
Qed.

Lemma itemRadarsMap_of_Normal W m :
  RadarItemForm.itemRadarsMap_of W = Js.Normal m →
  plain_ids W ∧ m = grouped W.
Proof.
  unfold RadarItemForm.itemRadarsMap_of. revert m.
  induction W as [|e W IH] using rev_ind; intros m.
  - intros [= <-]. split; [|done]. intros id Hid. by apply elem_of_nil in Hid.
  - rewrite reduce_snoc.
    destruct (Js.reduce RadarItemForm.itemRadarsMap_step W []) as [m'|]
      eqn:HW; cbn [Js.bind]; [|done].
    destruct (IH m' eq_refl) as [Hplain ->].
    rewrite itemRadarsMap_step_grouped. intros Hstep.
    assert (Js.inherited (ItemRadar.id e) = false ∧ m = grouped (W ++ [e]))
      as [He ->].
    { destruct (decide (ItemRadar.id e ∈ wire_ids W)) as [Hin|Hout].
      - split; [by apply Hplain | congruence].
      - destruct (Js.inherited (ItemRadar.id e)); [done|].
        split; [done | congruence]. }
    split; [|done].
    intros id. unfold wire_ids. rewrite fmap_app, elem_of_app.
    intros [Hid|Hid]; [by apply Hplain|].
    apply list_elem_of_singleton in Hid. by subst.
Qed.

(** ** The catalog map *)

Lemma inherited_proto k : Js.inherited k = false → k ≠ "__proto__".
Proof. by intros Hk ->. Qed.

Lemma radarsMap_of_snoc rs r :
  RadarItemForm.radarsMap_of (rs ++ [r])
  = RadarItemForm.radarsMap_add (RadarItemForm.radarsMap_of rs) r.
Proof. unfold RadarItemForm.radarsMap_of. by rewrite foldl_snoc. Qed.

(** The own entries of the catalog map are catalog radars under their own
    id; an id has no own entry only when it is not in the catalog or is
    ['__proto__']. *)
Lemma radarsMap_own rs k :
  match Js.own_get (RadarsMap.own (RadarItemForm.radarsMap_of rs)) k with
  | Some r => r ∈ rs ∧ Radar.id r = k
  | None => k ∉ catalog_ids rs ∨ k = "__proto__"
  end.
Proof.
  induction rs as [|r rs IH] using rev_ind.
  - left. apply not_elem_of_nil.
  - rewrite radarsMap_of_snoc. unfold RadarItemForm.radarsMap_add, catalog_ids.
    rewrite fmap_app.
    destruct (decide (Radar.id r = "__proto__")) as [Hp|Hp];
      cbn [RadarsMap.own].
    + destruct (Js.own_get _ k) as [r0|].
      * destruct IH as [Hin Hid]. split; [|done]. apply elem_of_app. by left.
      * destruct (decide (k = "__proto__")) as [->|Hk]; [by right|].
        destruct IH as [Hout|?]; [|done]. left.
        rewrite not_elem_of_app. split; [done|].
        cbn [fmap list_fmap]. rewrite list_elem_of_singleton. congruence.
    + rewrite own_get_own_set.
      destruct (decide (Radar.id r = k)) as [Hk|Hk].
      * split; [|done]. apply elem_of_app. right. by left.
      * destruct (Js.own_get _ k) as [r0|].
        -- destruct IH as [Hin Hid]. split; [|done]. apply elem_of_app.
           by left.
        -- destruct IH as [Hout|?]; [|by right]. left.
           rewrite not_elem_of_app. split; [done|].
           cbn [fmap list_fmap]. rewrite list_elem_of_singleton. congruence.
Qed.

Lemma radarsMap_name_covered rs k :
  k ∈ catalog_ids rs → Js.inherited k = false →
  ∃ r, Js.own_get (RadarsMap.own (RadarItemForm.radarsMap_of rs)) k = Some r
       ∧ r ∈ rs ∧ Radar.id r = k
       ∧ RadarItemForm.radarsMap_name (RadarItemForm.radarsMap_of rs) k
         = Js.Normal (Some (Radar.name r)).
Proof.
  intros Hin Hplain. pose proof (radarsMap_own rs k) as Hown.
  unfold RadarItemForm.radarsMap_name.
  destruct (Js.own_get _ k) as [r|].
  - exists r. by destruct Hown.
  - destruct Hown as [?|?]; [done|]. by apply inherited_proto in Hplain.
Qed.

Lemma radarsMap_name_uncovered rs k :
  k ∉ catalog_ids rs → Js.inherited k = false →
  RadarItemForm.radarsMap_name (RadarItemForm.radarsMap_of rs) k = Js.Throw
  ∨ RadarItemForm.radarsMap_name (RadarItemForm.radarsMap_of rs) k
    = Js.Normal None.
Proof.
  intros Hout Hplain. pose proof (radarsMap_own rs k) as Hown.
  unfold RadarItemForm.radarsMap_name.
  destruct (Js.own_get _ k) as [r|].
  - destruct Hown as [Hin <-]. exfalso. apply Hout.
    unfold catalog_ids. by apply list_elem_of_fmap_2.
  - rewrite decide_False by (by apply inherited_proto).
    rewrite Hplain. destruct (_ && _); [by right | by left].
Qed.

(** ** The rows of the reconciliation *)

Lemma keys_grouped W :
  Js.keys (grouped W) = Js.key_order (first_seen (wire_ids W)).
Proof. unfold Js.keys, grouped. by rewrite own_keys_tabulate. Qed.

Lemma elem_of_keys_grouped W k : k ∈ Js.keys (grouped W) ↔ k ∈ wire_ids W.
Proof. by rewrite keys_grouped, elem_of_key_order, elem_of_first_seen. Qed.

Lemma get_grouped W k :
  k ∈ wire_ids W →
  Js.get (grouped W) k
  = Js.Own {| ItemRadarsEntry.quadrants := quadrants_of k W |}.
Proof.
  intros Hk. unfold Js.get, grouped. rewrite own_get_tabulate.
  by rewrite decide_True by (by apply elem_of_first_seen).
Qed.

Lemma formattedItemRadars_grouped rs W :
  covers rs W → plain_ids W →
  ∃ rows,
    RadarItemForm.formattedItemRadars (RadarItemForm.radarsMap_of rs) (grouped W)
    = Js.Normal rows
    ∧ Forall2 (row_for rs W) (Js.key_order (first_seen (wire_ids W))) rows.
Proof.
  intros Hcov Hplain. unfold RadarItemForm.formattedItemRadars.
  rewrite <- keys_grouped. apply map_throwing_Forall2.
  intros k Hk. apply elem_of_keys_grouped in Hk.
  destruct (radarsMap_name_covered rs k) as (r & _ & Hr & Hid & Hname);
    [by apply Hcov | by apply Hplain |].
  rewrite Hname, get_grouped by done. cbn [Js.bind].
  eexists. split; [done|].
  split; [done|]. split; [by exists r | done].
Qed.

Lemma reconcile_rows rs W :
  covers rs W → plain_ids W →
  ∃ rows,
    RadarItemForm.reconcile rs W = Js.Normal rows
    ∧ Forall2 (row_for rs W) (Js.key_order (first_seen (wire_ids W))) rows.
Proof.
  intros Hcov Hplain. unfold RadarItemForm.reconcile.
  rewrite itemRadarsMap_of_plain by done. cbn [Js.bind].
  by apply formattedItemRadars_grouped.
Qed.

Lemma row_for_radarIds rs W ks rows :
  Forall2 (row_for rs W) ks rows → FormRadar.radarId <$> rows = ks.
Proof.
  induction 1 as [|k row ks rows (Hid & _) _ IH]; [done|].
  cbn [fmap list_fmap]. by rewrite Hid, <- IH.
Qed.

(** ** Flattening *)

Lemma group_of_rebuild k W :
  (λ q, {| ItemRadar.id := k; ItemRadar.quadrant := q |}) <$> quadrants_of k W
  = group_of k W.
Proof.
  unfold quadrants_of, group_of. induction W as [|[id q] W IH]; [done|].
  destruct (decide (id = k)) as [->|Hne].
  - rewrite filter_cons_True by done. cbn [fmap list_fmap]. f_equal.
    apply IH.
  - by rewrite filter_cons_False by done.
Qed.

Lemma flattenRadars_rows rs W ks rows :
  Forall2 (row_for rs W) ks rows →
  flattenRadars rows = flat_map (λ k, group_of k W) ks.
Proof.
  induction 1 as [|k row ks rows (Hid & _ & Hq) _ IH]; [done|].
  unfold flattenRadars in *. cbn [flat_map]. rewrite IH. f_equal.
  rewrite Hid, Hq, <- list_fmap_compose. apply group_of_rebuild.
Qed.

Lemma flat_map_group_of_cons e W ks :
  NoDup ks →
  flat_map (λ k, group_of k (e :: W)) ks
  ≡ₚ (if decide (ItemRadar.id e ∈ ks) then [e] else [])
     ++ flat_map (λ k, group_of k W) ks.
Proof.
  induction 1 as [|k ks Hout Hnd IH].
  { by rewrite decide_False by apply not_elem_of_nil. }
  cbn [flat_map]. rewrite IH. unfold group_of at 1.
  destruct (decide (ItemRadar.id e = k)) as [Hk|Hk].
  - rewrite filter_cons_True by done.
    rewrite decide_False by (by rewrite Hk).
    rewrite decide_True by (rewrite Hk; by left). done.
  - rewrite filter_cons_False by done. fold (group_of k W).
    destruct (decide (ItemRadar.id e ∈ ks)) as [Hin|Hnin].
    + rewrite decide_True by (by right). cbn [app].
      by rewrite Permutation_middle.
    + rewrite decide_False; [done|]. rewrite not_elem_of_cons. done.
Qed.

(** Listing the groups along any duplicate-free list of keys that covers
    the wire ids rearranges the wire list. *)
Lemma flat_map_group_of_perm W ks :
  NoDup ks → (∀ id, id ∈ wire_ids W → id ∈ ks) →
  flat_map (λ k, group_of k W) ks ≡ₚ W.
Proof.
  intros Hnd. induction W as [|e W IH]; intros Hks.
  - clear Hnd Hks. induction ks as [|k ks IHks]; [done|]. cbn [flat_map].
    by rewrite IHks.
  - rewrite flat_map_group_of_cons by done.
    rewrite decide_True by (apply Hks; by left). cbn [app].
    constructor. apply IH. intros id Hid. apply Hks. by right.
Qed.

(** ** The shape of [Object.keys] *)

Lemma insert_index_sorted k l :
  StronglySorted (λ a b : N * string, (a.1 ≤ b.1)%N) l →
  StronglySorted (λ a b : N * string, (a.1 ≤ b.1)%N) (Js.insert_index k l).
Proof.
  induction 1 as [|h t Hs IH Hh]; cbn [Js.insert_index].
  - repeat constructor.
  - destruct (k.1 <=? h.1)%N eqn:Hle.
    + apply N.leb_le in Hle. constructor; [by constructor|].
      constructor; [done|].
      eapply Forall_impl; [exact Hh|]. intros p Hp. cbn in *. lia.
    + apply N.leb_gt in Hle. constructor; [done|].
      rewrite insert_index_perm. constructor; [cbn; lia | done].
Qed.

Lemma sort_indices_sorted l :
  StronglySorted (λ a b : N * string, (a.1 ≤ b.1)%N) (Js.sort_indices l).
Proof.
  induction l as [|k l IH]; [constructor|].
  cbn [Js.sort_indices foldr]. by apply insert_index_sorted.
Qed.

Lemma index_keys_index ks p :
  p ∈ Js.index_keys ks → Js.array_index p.2 = Some p.1.
Proof.
  unfold Js.index_keys. rewrite list_elem_of_omap.
  intros (k & _ & Hk). destruct (Js.array_index k) as [n|] eqn:Hn; [|done].
  cbn in Hk. by injection Hk as <-.
Qed.

Lemma index_le_fmap l :
  (∀ p, p ∈ l → Js.array_index p.2 = Some p.1) →
  StronglySorted (λ a b : N * string, (a.1 ≤ b.1)%N) l →
  StronglySorted Js.index_le (l.*2).
Proof.
  intros Hl. induction 1 as [|h t Hs IH Hh]; [constructor|].
  cbn [fmap list_fmap]. constructor.
  - apply IH. intros p Hp. apply Hl. by right.
  - apply Forall_fmap. rewrite Forall_forall in Hh. apply Forall_forall.
    intros p Hp. unfold Js.index_le. cbn.
    rewrite (Hl h) by (by left). rewrite (Hl p) by (by right).
    by apply Hh.
Qed.

(** [Object.keys] lists the array-index keys first, in ascending numeric
    order, and then the other keys in creation order. *)
Lemma key_order_shape ks :
  ∃ idx,
    Js.key_order ks = idx ++ filter (λ k, Js.array_index k = None) ks
    ∧ idx ≡ₚ filter (λ k, ¬ Js.array_index k = None) ks
    ∧ StronglySorted Js.index_le idx.
Proof.
  exists ((Js.sort_indices (Js.index_keys ks)).*2). split; [done|]. split.
  - by rewrite sort_indices_perm, index_keys_snd.
  - apply index_le_fmap; [|apply sort_indices_sorted].
    intros p Hp. apply (index_keys_index ks).
    by rewrite <- (sort_indices_perm (Js.index_keys ks)).
Qed.

(** ** Deciding the preconditions on concrete data *)

Lemma covers_Forall rs W :
  Forall (λ id, id ∈ catalog_ids rs) (wire_ids W) → covers rs W.
Proof. intros H id Hid. by eapply Forall_forall in H. Qed.

Lemma plain_ids_Forall W :
  Forall (λ id, Js.inherited id = false) (wire_ids W) → plain_ids W.
Proof. intros H id Hid. by eapply Forall_forall in H. Qed.

Lemma no_index_ids_Forall W :
  Forall (λ id, Js.array_index id = None) (wire_ids W) → no_index_ids W.
Proof. intros H id Hid. by eapply Forall_forall in H. Qed.

(** ** The reconciliation effect *)

Lemma reconciliation_effect_Done st rs it m rows :
  RadarItemForm.radars st = Some rs → RadarItemForm.item st = Some it →
  RadarItemForm.itemRadarsMap_of (RadarItem.radars it) = Js.Normal m →
  RadarItemForm.formattedItemRadars (RadarItemForm.radarsMap_of rs) m
  = Js.Normal rows →
  ∃ st', RadarItemForm.reconciliation_effect st = RadarItemForm.Done st'
         ∧ RadarItemForm.fields st' = rows
         ∧ RadarItemForm.itemRadars st' = m
         ∧ RadarItemForm.radars st' = Some rs
         ∧ RadarItemForm.item st' = Some it.
Proof.
  intros Hrs Hit Hm Hrows. unfold RadarItemForm.reconciliation_effect.
  rewrite Hrs, Hit, Hm, Hrows. eexists. split; [done|]. by cbn.
Qed.

(** C1, as amended.  With the catalog and the item fetched, every radar id
    of the wire list in the catalog and none of them naming a member of
    [Object.prototype], the effect completes and resets the association
    rows to exactly one row per distinct radar id: its label is the name
    of a catalog radar with that id, its options are the quadrants of that
    radar's wire entries in wire order, each as [{id: q, label: q}].  The
    rows come in the order of [Object.keys]: the ids that are array
    indices first, in ascending numeric order, then the other ids in the
    order of their first appearance; when no id is an array index this is
    the order of first appearance. *)
Theorem reconcile_one_row_per_radar st rs it :
  RadarItemForm.radars st = Some rs → RadarItemForm.item st = Some it →
  covers rs (RadarItem.radars it) → plain_ids (RadarItem.radars it) →
  let W := RadarItem.radars it in
  ∃ st' idx,
    RadarItemForm.reconciliation_effect st = RadarItemForm.Done st'
    ∧ RadarItemForm.reconcile rs W = Js.Normal (RadarItemForm.fields st')
    ∧ RadarItemForm.itemRadars st' = grouped W
    ∧ Forall2 (row_for rs W) (Js.key_order (first_seen (wire_ids W)))
        (RadarItemForm.fields st')
    ∧ NoDup (FormRadar.radarId <$> RadarItemForm.fields st')
    ∧ (∀ id, id ∈ FormRadar.radarId <$> RadarItemForm.fields st'
             ↔ id ∈ wire_ids W)
    ∧ FormRadar.radarId <$> RadarItemForm.fields st'
      = idx ++ filter (λ k, Js.array_index k = None) (first_seen (wire_ids W))
    ∧ idx ≡ₚ filter (λ k, ¬ Js.array_index k = None) (first_seen (wire_ids W))
    ∧ StronglySorted Js.index_le idx
    ∧ (no_index_ids W →
       FormRadar.radarId <$> RadarItemForm.fields st' = first_seen (wire_ids W)).
Proof.
  intros Hrs Hit Hcov Hplain W.
  destruct (formattedItemRadars_grouped rs W Hcov Hplain) as (rows & Hrows & HF).
  destruct (reconciliation_effect_Done st rs it (grouped W) rows)
    as (st' & Hst' & Hfields & Hmap & _); try done.
  { by apply itemRadarsMap_of_plain. }
  destruct (key_order_shape (first_seen (wire_ids W))) as (idx & Hidx & Hp & Hs).
  pose proof (row_for_radarIds _ _ _ _ HF) as Hids.
  exists st', idx. rewrite Hfields, Hids.
  split; [done|]. split.
  { unfold RadarItemForm.reconcile.
    rewrite itemRadarsMap_of_plain by done. done. }
  split; [done|]. split; [done|]. split.
  { apply NoDup_key_order, NoDup_first_seen. }
  split.
  { intros id. by rewrite elem_of_key_order, elem_of_first_seen. }
  split; [done|]. split; [done|]. split; [done|].
  intros Hno. apply key_order_no_index.
  intros k Hk. apply Hno. by apply elem_of_first_seen.
Qed.

Lemma reconcile_one_row_per_radar_witness :
  ∃ st' idx,
    RadarItemForm.reconciliation_effect
      {| RadarItemForm.radars := Some Sample.catalog_r;
         RadarItemForm.item := Some (Sample.item Sample.wire_r);
         RadarItemForm.itemRadars := [];
         RadarItemForm.values := Sample.values [Sample.empty_row] |}
    = RadarItemForm.Done st'
    ∧ RadarItemForm.reconcile Sample.catalog_r Sample.wire_r
      = Js.Normal (RadarItemForm.fields st')
    ∧ RadarItemForm.itemRadars st' = grouped Sample.wire_r
    ∧ Forall2 (row_for Sample.catalog_r Sample.wire_r)
        (Js.key_order (first_seen (wire_ids Sample.wire_r)))
        (RadarItemForm.fields st')
    ∧ NoDup (FormRadar.radarId <$> RadarItemForm.fields st')
    ∧ (∀ id, id ∈ FormRadar.radarId <$> RadarItemForm.fields st'
             ↔ id ∈ wire_ids Sample.wire_r)
    ∧ FormRadar.radarId <$> RadarItemForm.fields st'
      = idx ++ filter (λ k, Js.array_index k = None)
                 (first_seen (wire_ids Sample.wire_r))
    ∧ idx ≡ₚ filter (λ k, ¬ Js.array_index k = None)
               (first_seen (wire_ids Sample.wire_r))
    ∧ StronglySorted Js.index_le idx
    ∧ (no_index_ids Sample.wire_r →
       FormRadar.radarId <$> RadarItemForm.fields st'
       = first_seen (wire_ids Sample.wire_r)).
Proof.
  apply (reconcile_one_row_per_radar
           {| RadarItemForm.radars := Some Sample.catalog_r;
              RadarItemForm.item := Some (Sample.item Sample.wire_r);
              RadarItemForm.itemRadars := [];
              RadarItemForm.values := Sample.values [Sample.empty_row] |}
           Sample.catalog_r (Sample.item Sample.wire_r)).
  - reflexivity.
  - reflexivity.
  - apply covers_Forall. vm_compute. repeat constructor.
  - apply plain_ids_Forall. vm_compute. repeat constructor.
Defined.

(** C1 as stated fails: with the ids ["1"] and ["2"], an item whose wire
    list mentions radar 2 first gets the row of radar 1 first. *)
Lemma reconcile_first_appearance_counterexample :
  covers Sample.catalog Sample.wire
  ∧ RadarItemForm.reconcile Sample.catalog Sample.wire
    = Js.Normal
        [ {| FormRadar.radarId := "1"; FormRadar.label := Some "Radar One";
             FormRadar.quadrants :=
               [ {| SelectItem.id := "q1"; SelectItem.label := "q1" |};
                 {| SelectItem.id := "q2"; SelectItem.label := "q2" |} ] |};
          {| FormRadar.radarId := "2"; FormRadar.label := Some "Radar Two";
             FormRadar.quadrants :=
               [ {| SelectItem.id := "q3"; SelectItem.label := "q3" |} ] |} ]
  ∧ first_seen (wire_ids Sample.wire) = ["2"; "1"]
  ∧ ¬ ∃ rows,
        RadarItemForm.reconcile Sample.catalog Sample.wire = Js.Normal rows
        ∧ Forall2 (row_for Sample.catalog Sample.wire)
            (first_seen (wire_ids Sample.wire)) rows.
Proof.
  split; [apply covers_Forall; vm_compute; repeat constructor|].
  split; [by vm_compute|]. split; [by vm_compute|].
  intros (rows & Hrows & HF). vm_compute in Hrows. injection Hrows as <-.
  apply Forall2_cons_1 in HF as [(Hid & _) _]. by vm_compute in Hid.
Qed.

(** ** Round trip through the form shape *)

(** C2, as amended.  For a catalog that contains every radar id of the
    wire list [W], and no radar id naming a member of [Object.prototype],
    grouping [W] and flattening the resulting rows yields a rearrangement
    of [W] (equal as a multiset): the groups of the radars one after the
    other in the order of [Object.keys], each group in wire order.  When
    no radar id is an array index, the result is [W] with the entries of
    each radar made contiguous, radars in the order of first appearance. *)
Theorem round_trip_multiset rs W :
  covers rs W → plain_ids W →
  ∃ out,
    round_trip rs W = Js.Normal out
    ∧ out ≡ₚ W
    ∧ out = flat_map (λ k, group_of k W)
              (Js.key_order (first_seen (wire_ids W)))
    ∧ (no_index_ids W → out = contiguous_grouping W).
Proof.
  intros Hcov Hplain.
  destruct (reconcile_rows rs W Hcov Hplain) as (rows & Hrows & HF).
  exists (flattenRadars rows). unfold round_trip. rewrite Hrows.
  split; [done|]. rewrite (flattenRadars_rows _ _ _ _ HF).
  split.
  { apply flat_map_group_of_perm.
    - apply NoDup_key_order, NoDup_first_seen.
    - intros id Hid. by rewrite elem_of_key_order, elem_of_first_seen. }
  split; [done|].
  intros Hno. unfold contiguous_grouping. rewrite key_order_no_index; [done|].
  intros k Hk. apply Hno. by apply elem_of_first_seen.
Qed.

Lemma round_trip_multiset_witness :
  ∃ out,
    round_trip Sample.catalog_r Sample.wire_r = Js.Normal out
    ∧ out ≡ₚ Sample.wire_r
    ∧ out = flat_map (λ k, group_of k Sample.wire_r)
              (Js.key_order (first_seen (wire_ids Sample.wire_r)))
    ∧ (no_index_ids Sample.wire_r → out = contiguous_grouping Sample.wire_r).
Proof.
  apply (round_trip_multiset Sample.catalog_r Sample.wire_r).
  - apply covers_Forall. vm_compute. repeat constructor.
  - apply plain_ids_Forall. vm_compute. repeat constructor.
Defined.

(** C2 as stated fails on the order: the wire list below has one entry per
    radar, so no group has to be made contiguous, yet the round trip
    returns the entries in another order. *)
Lemma round_trip_order_counterexample :
  covers Sample.catalog Sample.wire_distinct
  ∧ NoDup (wire_ids Sample.wire_distinct)
  ∧ contiguous_grouping Sample.wire_distinct = Sample.wire_distinct
  ∧ round_trip Sample.catalog Sample.wire_distinct
    = Js.Normal [Sample.pair "1" "q1"; Sample.pair "2" "q3"]
  ∧ ¬ ∃ out,
        round_trip Sample.catalog Sample.wire_distinct = Js.Normal out
        ∧ out ≡ₚ Sample.wire_distinct
        ∧ out = contiguous_grouping Sample.wire_distinct.
Proof.
  split; [apply covers_Forall; vm_compute; repeat constructor|].
  split; [compute_done|].
  split; [by vm_compute|]. split; [by vm_compute|].
  intros (out & Hout & _ & Heq). vm_compute in Hout, Heq. congruence.
Qed.

(** A radar id that names a member of [Object.prototype] makes the
    grouping throw, even when the catalog contains it. *)
Example reconcile_inherited_id_throws :
  let r := {| Radar.id := "constructor"; Radar.name := "Core";
              Radar.rings := []; Radar.quadrants := ["q1"] |} in
  covers [r] [Sample.pair "constructor" "q1"]
  ∧ RadarItemForm.reconcile [r] [Sample.pair "constructor" "q1"] = Js.Throw.
Proof.
  split; [apply covers_Forall; vm_compute; repeat constructor | by vm_compute].
Qed.

(** ** The label lookup *)

(** C6.  When every radar id of the item's wire list exists in the
    catalog, the label lookup of each grouped radar id reads an own entry
    of the catalog map: a radar of the catalog with that id, whose name
    becomes the label, so the read of [name] does not throw.  No fallback
    exists: for a catalog that lacks the id, the lookup throws or (when a
    catalog radar with id ['__proto__'] has replaced the prototype) reads
    [undefined]; it never produces a label. *)
Theorem label_lookup_defined rs W m k :
  covers rs W →
  RadarItemForm.itemRadarsMap_of W = Js.Normal m →
  k ∈ Js.keys m →
  (∃ r, Js.own_get (RadarsMap.own (RadarItemForm.radarsMap_of rs)) k = Some r
        ∧ r ∈ rs ∧ Radar.id r = k
        ∧ RadarItemForm.radarsMap_name (RadarItemForm.radarsMap_of rs) k
          = Js.Normal (Some (Radar.name r)))
  ∧ (∀ rs', k ∉ catalog_ids rs' →
       RadarItemForm.radarsMap_name (RadarItemForm.radarsMap_of rs') k
       = Js.Throw
       ∨ RadarItemForm.radarsMap_name (RadarItemForm.radarsMap_of rs') k
         = Js.Normal None).
Proof.
  intros Hcov Hm Hk. apply itemRadarsMap_of_Normal in Hm as [Hplain ->].
  apply elem_of_keys_grouped in Hk. split.
  - apply radarsMap_name_covered; [by apply Hcov | by apply Hplain].
  - intros rs' Hout. apply radarsMap_name_uncovered; [done | by apply Hplain].
Qed.

Lemma label_lookup_defined_witness :
  (∃ r, Js.own_get (RadarsMap.own (RadarItemForm.radarsMap_of Sample.catalog))
          "2" = Some r
        ∧ r ∈ Sample.catalog ∧ Radar.id r = "2"
        ∧ RadarItemForm.radarsMap_name
            (RadarItemForm.radarsMap_of Sample.catalog) "2"
          = Js.Normal (Some (Radar.name r)))
  ∧ (∀ rs', "2" ∉ catalog_ids rs' →
       RadarItemForm.radarsMap_name (RadarItemForm.radarsMap_of rs') "2"
       = Js.Throw
       ∨ RadarItemForm.radarsMap_name (RadarItemForm.radarsMap_of rs') "2"
         = Js.Normal None).
Proof.
  apply (label_lookup_defined Sample.catalog Sample.wire
           (grouped Sample.wire) "2").
  - apply covers_Forall. vm_compute. repeat constructor.
  - vm_compute. reflexivity.
  - vm_compute. repeat constructor.
Defined.

(** ** Selecting a radar *)

Lemma find_catalog rs id :
  id ∈ catalog_ids rs →
  ∃ r, List.find (λ r, bool_decide (Radar.id r = id)) rs = Some r
       ∧ r ∈ rs ∧ Radar.id r = id.
Proof.
  unfold catalog_ids. induction rs as [|r0 rs IH]; cbn [fmap list_fmap].
  - intros H. by apply elem_of_nil in H.
  - intros Hin. cbn [List.find]. destruct (decide (Radar.id r0 = id)) as [H0|H0].
    + exists r0. rewrite bool_decide_eq_true_2 by done.
      split; [done|]. split; [by left | done].
    + rewrite bool_decide_eq_false_2 by done.
      apply elem_of_cons in Hin as [?|Hin]; [congruence|].
      destruct (IH Hin) as (r & Hr & Hrin & Hid). exists r.
      split; [done|]. split; [by right | done].
Qed.

(** C3.  For a row of the form and a selected (non-empty) radar id that is
    present in the fetched catalog, [handleRadarChange] replaces the row:
    [radarId] is the selected id and [label] the name of the chosen radar
    (the first catalog radar with that id); the quadrant options are the
    quadrants stored for that id in [itemRadars] when it has an entry for
    it, and all quadrants of the chosen radar otherwise, each as
    [{id: q, label: q}].  The other rows are untouched. *)
Theorem handleRadarChange_sets_row st rs index id :
  RadarItemForm.radars st = Some rs →
  Js.truthy (Some id) = true →
  id ∈ catalog_ids rs →
  index < length (RadarItemForm.fields st) →
  ∃ r row,
    List.find (λ r, bool_decide (Radar.id r = id)) rs = Some r
    ∧ r ∈ rs ∧ Radar.id r = id
    ∧ RadarItemForm.fields (RadarItemForm.handleRadarChange index (Some id) st)
      = <[index := row]> (RadarItemForm.fields st)
    ∧ RadarItemForm.fields (RadarItemForm.handleRadarChange index (Some id) st)
        !! index = Some row
    ∧ FormRadar.radarId row = id
    ∧ FormRadar.label row = Some (Radar.name r)
    ∧ (∀ entry, Js.own_get (RadarItemForm.itemRadars st) id = Some entry →
         FormRadar.quadrants row
         = (λ q, {| SelectItem.id := q; SelectItem.label := q |})
             <$> ItemRadarsEntry.quadrants entry)
    ∧ (Js.own_get (RadarItemForm.itemRadars st) id = None →
         FormRadar.quadrants row
         = (λ q, {| SelectItem.id := q; SelectItem.label := q |})
             <$> Radar.quadrants r).
Proof.
  intros Hrs Htruthy Hin Hindex.
  destruct (find_catalog rs id Hin) as (r & Hfind & Hr & Hid).
  unfold RadarItemForm.handleRadarChange. rewrite Hrs, Htruthy, Hfind.
  cbn [negb]. unfold Js.get.
  destruct (Js.own_get (RadarItemForm.itemRadars st) id) as [entry|] eqn:Hget.
  - eexists r, _. split; [done|]. split; [done|]. split; [done|].
    split; [done|]. split.
    { cbn. by apply list_lookup_insert_eq. }
    split; [done|]. split; [done|]. split; [|done].
    by intros ? [= <-].
  - eexists r, _. split; [done|]. split; [done|]. split; [done|].
    split; [done|]. split.
    { cbn. by apply list_lookup_insert_eq. }
    split; [done|]. split; [done|]. split; [done|].
    intros _. by destruct (Js.inherited id).
Qed.

Lemma handleRadarChange_sets_row_witness :
  ∃ r row,
    List.find (λ r, bool_decide (Radar.id r = "r1")) Sample.catalog_r = Some r
    ∧ r ∈ Sample.catalog_r ∧ Radar.id r = "r1"
    ∧ RadarItemForm.fields
        (RadarItemForm.handleRadarChange 0 (Some "r1")
           (Sample.loaded (grouped Sample.wire_r) [Sample.empty_row]))
      = <[0 := row]>
          (RadarItemForm.fields
             (Sample.loaded (grouped Sample.wire_r) [Sample.empty_row]))
    ∧ RadarItemForm.fields
        (RadarItemForm.handleRadarChange 0 (Some "r1")
           (Sample.loaded (grouped Sample.wire_r) [Sample.empty_row]))
        !! 0 = Some row
    ∧ FormRadar.radarId row = "r1"
    ∧ FormRadar.label row = Some (Radar.name r)
    ∧ (∀ entry,
         Js.own_get
           (RadarItemForm.itemRadars
              (Sample.loaded (grouped Sample.wire_r) [Sample.empty_row]))
           "r1" = Some entry →
         FormRadar.quadrants row
         = (λ q, {| SelectItem.id := q; SelectItem.label := q |})
             <$> ItemRadarsEntry.quadrants entry)
    ∧ (Js.own_get
         (RadarItemForm.itemRadars
            (Sample.loaded (grouped Sample.wire_r) [Sample.empty_row]))
         "r1" = None →
         FormRadar.quadrants row
         = (λ q, {| SelectItem.id := q; SelectItem.label := q |})
             <$> Radar.quadrants r).
Proof.
  apply (handleRadarChange_sets_row
           (Sample.loaded (grouped Sample.wire_r) [Sample.empty_row])
           Sample.catalog_r 0 "r1").
  - reflexivity.
  - reflexivity.
  - vm_compute. repeat constructor.
  - vm_compute. lia.
Defined.

(** The scenario of the spec: three wire entries on two radars reconcile
    into two rows. *)
Example reconcile_scenario :
  RadarItemForm.reconcile Sample.catalog_r Sample.wire_r
  = Js.Normal
      [ {| FormRadar.radarId := "r1"; FormRadar.label := Some "Radar One";
           FormRadar.quadrants :=
             [ {| SelectItem.id := "q1"; SelectItem.label := "q1" |};
               {| SelectItem.id := "q2"; SelectItem.label := "q2" |} ] |};
        {| FormRadar.radarId := "r2"; FormRadar.label := Some "Radar Two";
           FormRadar.quadrants :=
             [ {| SelectItem.id := "q3"; SelectItem.label := "q3" |} ] |} ].
Proof. by vm_compute. Qed.

(** The persisted subset is offered for a radar the item is already on,
    all quadrants of the radar for a radar it is not on. *)
Example handleRadarChange_persisted :
  RadarItemForm.fields
    (RadarItemForm.handleRadarChange 0 (Some "r1")
       (Sample.loaded (grouped Sample.wire_r) [Sample.empty_row]))
  = [ {| FormRadar.radarId := "r1"; FormRadar.label := Some "Radar One";
         FormRadar.quadrants :=
           [ {| SelectItem.id := "q1"; SelectItem.label := "q1" |};
             {| SelectItem.id := "q2"; SelectItem.label := "q2" |} ] |} ].
Proof. by vm_compute. Qed.

Example handleRadarChange_unassociated :
  RadarItemForm.fields
    (RadarItemForm.handleRadarChange 0 (Some "r1")
       (Sample.loaded [] [Sample.empty_row]))
  = [ {| FormRadar.radarId := "r1"; FormRadar.label := Some "Radar One";
         FormRadar.quadrants :=
           [ {| SelectItem.id := "q1"; SelectItem.label := "q1" |};
             {| SelectItem.id := "q2"; SelectItem.label := "q2" |};
             {| SelectItem.id := "q3"; SelectItem.label := "q3" |} ] |} ].
Proof. by vm_compute. Qed.

(** ** Flattening on submit *)

Lemma flattenRadars_app rows1 rows2 :
  flattenRadars (rows1 ++ rows2) = flattenRadars rows1 ++ flattenRadars rows2.
Proof. unfold flattenRadars. apply flat_map_app. Qed.

(** C4.  A row whose list of selected quadrants is empty contributes no
    wire pair: the transform returns an ordinary (possibly shorter) list of
    pairs, and the payload is the one obtained with the row removed. *)
Theorem empty_row_flattens_to_nothing d rows1 row rows2 :
  FormRadar.quadrants row = [] →
  flattenRadars [row] = []
  ∧ flattenRadars (rows1 ++ row :: rows2) = flattenRadars (rows1 ++ rows2)
  ∧ transformItemFormData
      (RadarItemFormData.with_radars d (rows1 ++ row :: rows2))
    = transformItemFormData (RadarItemFormData.with_radars d (rows1 ++ rows2)).
Proof.
  intros Hq.
  assert (flattenRadars [row] = []) as Hrow.
  { unfold flattenRadars. cbn [flat_map]. by rewrite Hq. }
  assert (flattenRadars (rows1 ++ row :: rows2) = flattenRadars (rows1 ++ rows2))
    as Hflat.
  { rewrite (cons_middle row), !flattenRadars_app, Hrow. done. }
  split; [done|]. split; [done|].
  unfold transformItemFormData, RadarItemFormData.with_radars.
  f_equal. exact Hflat.
Qed.

Lemma empty_row_flattens_to_nothing_witness :
  let row1 := {| FormRadar.radarId := "r1"; FormRadar.label := Some "Radar One";
                 FormRadar.quadrants := formatSelectData (Some ["q1"]) |} in
  let row2 := {| FormRadar.radarId := "r2"; FormRadar.label := Some "Radar Two";
                 FormRadar.quadrants := [] |} in
  flattenRadars [row2] = []
  ∧ flattenRadars ([row1] ++ row2 :: []) = flattenRadars ([row1] ++ [])
  ∧ transformItemFormData
      (RadarItemFormData.with_radars (Sample.values []) ([row1] ++ row2 :: []))
    = transformItemFormData
        (RadarItemFormData.with_radars (Sample.values []) ([row1] ++ [])).
Proof.
  intros row1 row2.
  apply (empty_row_flattens_to_nothing (Sample.values []) [row1] row2 []).
  reflexivity.
Defined.

(** ** The number of association rows *)

Lemma fields_set_fields rows st :
  RadarItemForm.fields (RadarItemForm.set_fields rows st) = rows.
Proof. done. Qed.

Lemma radars_set_fields rows st :
  RadarItemForm.radars (RadarItemForm.set_fields rows st)
  = RadarItemForm.radars st.
Proof. done. Qed.

Lemma length_delete_le {A} (l : list A) i : length (delete i l) ≤ length l.
Proof.
  revert i. induction l as [|x l IH]; intros [|i]; cbn; try lia.
  apply le_n_S, IH.
Qed.

Lemma handleRadarChange_length index selected st :
  RadarItemForm.radars (RadarItemForm.handleRadarChange index selected st)
  = RadarItemForm.radars st
  ∧ length (RadarItemForm.fields
              (RadarItemForm.handleRadarChange index selected st))
    = length (RadarItemForm.fields st).
Proof.
  unfold RadarItemForm.handleRadarChange.
  destruct selected as [id|]; [|done].
  destruct (RadarItemForm.radars st) as [rs|] eqn:Hrs; [|done].
  destruct (negb (Js.truthy (Some id))); [by rewrite Hrs|].
  destruct (List.find _ rs) as [r|]; [|by rewrite Hrs].
  unfold RadarItemForm.setRow.
  by rewrite fields_set_fields, radars_set_fields, length_insert.
Qed.

Lemma click_append_unfetched st :
  RadarItemForm.radars st = None →
  RadarItemForm.radars (RadarItemForm.click_append st) = None
  ∧ RadarItemForm.fields (RadarItemForm.click_append st)
    = RadarItemForm.fields st
        ++ [{| FormRadar.radarId := ""; FormRadar.label := Some "";
               FormRadar.quadrants := [] |}].
Proof.
  intros Hrs. unfold RadarItemForm.click_append, RadarItemForm.append_disabled.
  rewrite Hrs. by rewrite radars_set_fields, fields_set_fields.
Qed.

(** A user event keeps the catalog and, below the cap, keeps the number of
    rows below the cap. *)
Lemma user_step_capped st rs ev :
  RadarItemForm.user_event ev = true →
  RadarItemForm.radars st = Some rs →
  length (RadarItemForm.fields st) ≤ length rs →
  ∃ st', RadarItemForm.step st ev = RadarItemForm.Done st'
         ∧ RadarItemForm.radars st' = Some rs
         ∧ length (RadarItemForm.fields st') ≤ length rs.
Proof.
  intros Hev Hrs Hle. destruct ev as [| | |index|index selected|index chosen];
    try done; cbn [RadarItemForm.step]; eexists; (split; [done|]).
  - unfold RadarItemForm.click_append, RadarItemForm.append_disabled.
    rewrite Hrs.
    destruct (length (RadarItemForm.fields st) =? length rs) eqn:Heq;
      [done|].
    apply Nat.eqb_neq in Heq.
    rewrite fields_set_fields, radars_set_fields, length_app. cbn. split; [done|lia].
  - unfold RadarItemForm.click_remove.
    destruct (RadarItemForm.remove_rendered st index); [|done].
    rewrite fields_set_fields, radars_set_fields. split; [done|].
    etrans; [apply length_delete_le | done].
  - unfold RadarItemForm.select_radar.
    destruct (RadarItemForm.row_rendered st index); [|done].
    destruct (handleRadarChange_length index selected st) as [-> ->]. done.
  - unfold RadarItemForm.select_quadrants.
    destruct (RadarItemForm.row_rendered st index); [|done].
    by rewrite fields_set_fields, radars_set_fields, length_alter.
Qed.

(** X20.  With the catalog fetched: whenever the number of association
    rows equals the number of radars in the catalog, the add action is
    disabled and a click creates no row; so, from a state in which the
    rows do not outnumber the radars, no sequence of user actions (adding
    and removing rows, selecting radars and quadrants) makes the rows
    outnumber the radars of that catalog. *)
Theorem append_guard_caps_rows st rs evs :
  RadarItemForm.radars st = Some rs →
  length (RadarItemForm.fields st) ≤ length rs →
  Forall (λ ev, RadarItemForm.user_event ev = true) evs →
  (length (RadarItemForm.fields st) = length rs →
   RadarItemForm.append_disabled st = true
   ∧ RadarItemForm.click_append st = st)
  ∧ ∃ st', RadarItemForm.run st evs = RadarItemForm.Done st'
           ∧ RadarItemForm.radars st' = Some rs
           ∧ length (RadarItemForm.fields st') ≤ length rs.
Proof.
  intros Hrs Hle Hevs. split.
  - intros Heq. unfold RadarItemForm.click_append, RadarItemForm.append_disabled.
    rewrite Hrs, Heq, Nat.eqb_refl. done.
  - revert st Hrs Hle. induction Hevs as [|ev evs Hev _ IH]; intros st Hrs Hle.
    + by exists st.
    + destruct (user_step_capped st rs ev Hev Hrs Hle) as (st1 & Hst1 & Hrs1 & Hle1).
      cbn [RadarItemForm.run]. rewrite Hst1. by apply IH.
Qed.

Lemma append_guard_caps_rows_witness :
  let st := Sample.loaded [] [Sample.empty_row; Sample.empty_row] in
  (length (RadarItemForm.fields st) = length Sample.catalog_r →
   RadarItemForm.append_disabled st = true
   ∧ RadarItemForm.click_append st = st)
  ∧ ∃ st', RadarItemForm.run st
             [RadarItemForm.ClickAppend; RadarItemForm.ClickRemove 0;
              RadarItemForm.ClickAppend; RadarItemForm.ClickAppend]
           = RadarItemForm.Done st'
           ∧ RadarItemForm.radars st' = Some Sample.catalog_r
           ∧ length (RadarItemForm.fields st') ≤ length Sample.catalog_r.
Proof.
  intros st.
  apply (append_guard_caps_rows st Sample.catalog_r
           [RadarItemForm.ClickAppend; RadarItemForm.ClickRemove 0;
            RadarItemForm.ClickAppend; RadarItemForm.ClickAppend]).
  - reflexivity.
  - vm_compute. lia.
  - repeat constructor.
Defined.

(** C5.  The add guard misses the cap it is written for.  Mount the form,
    click the add button twice while the catalog has not been fetched
    (the guard [fields.length === radars?.length] is false then, although
    no row is shown), and let a catalog of one radar arrive: the form
    holds at least two rows against one radar, and the add action is
    still enabled, because an equality test does not hold above the cap.
    This happens whatever the default values of the form are, so the
    number of association rows is not bounded by the number of radars.
    The guards of the ring and quadrant editors compare with [>=]. *)
Lemma rows_outnumber_catalog_counterexample :
  (∀ defaultValues,
     ∃ st,
       RadarItemForm.run (RadarItemForm.mount defaultValues)
         [RadarItemForm.ClickAppend; RadarItemForm.ClickAppend;
          RadarItemForm.RadarsFetched [Sample.radar_one]]
       = RadarItemForm.Done st
       ∧ RadarItemForm.radars st = Some [Sample.radar_one]
       ∧ length (RadarItemForm.fields st)
         = length (RadarItemFormData.radars defaultValues) + 2
       ∧ RadarItemForm.append_disabled st = false)
  ∧ ¬ ∃ defaultValues,
        ∀ evs st rs,
          RadarItemForm.run (RadarItemForm.mount defaultValues) evs
          = RadarItemForm.Done st →
          RadarItemForm.radars st = Some rs →
          length (RadarItemForm.fields st) ≤ length rs.
Proof.
  assert (∀ defaultValues,
     ∃ st,
       RadarItemForm.run (RadarItemForm.mount defaultValues)
         [RadarItemForm.ClickAppend; RadarItemForm.ClickAppend;
          RadarItemForm.RadarsFetched [Sample.radar_one]]
       = RadarItemForm.Done st
       ∧ RadarItemForm.radars st = Some [Sample.radar_one]
       ∧ length (RadarItemForm.fields st)
         = length (RadarItemFormData.radars defaultValues) + 2
       ∧ RadarItemForm.append_disabled st = false) as Hrun.
  { intros d.
    pose proof (click_append_unfetched (RadarItemForm.mount d) eq_refl)
      as [Hr1 Hf1].
    pose proof (click_append_unfetched _ Hr1) as [Hr2 Hf2].
    eexists. split; [reflexivity|]. split; [reflexivity|].
    assert (length
              (RadarItemForm.fields
                 (RadarItemForm.click_append
                    (RadarItemForm.click_append (RadarItemForm.mount d))))
            = length (RadarItemFormData.radars d) + 2) as Hlen.
    { rewrite Hf2, Hf1, !length_app.
      change (RadarItemForm.fields (RadarItemForm.mount d))
        with (RadarItemFormData.radars d).
      cbn. lia. }
    split; [exact Hlen|].
    unfold RadarItemForm.append_disabled. cbn [RadarItemForm.radars].
    apply Nat.eqb_neq. intros Heq.
    change (length
              (RadarItemForm.fields
                 (RadarItemForm.click_append
                    (RadarItemForm.click_append (RadarItemForm.mount d))))
            = 1) in Heq.
    lia. }
  split; [exact Hrun|].
  intros (d & Hinv). destruct (Hrun d) as (st & Hst & Hrs & Hlen & _).
  specialize (Hinv _ _ _ Hst Hrs). rewrite Hlen in Hinv. cbn in Hinv. lia.
Qed.

(** ** Submission *)

(** C7.  A submission makes exactly one request: [updateRadarItem] with
    the item id when [itemId] is present (truthy), [createRadarItem] under
    the radar of the page otherwise, in both cases with the transformed
    form data.  When the request resolves, [addSnackbar] is called with
    status [success]; when it rejects, the rejection is caught, logged
    with [console.error] and [addSnackbar] is called with status [alert]
    and the generic failure message.  Nothing else happens: the request is
    not repeated and [formSubmit] itself completes normally. *)
Theorem formSubmit_calls radar itemId srv submitData :
  let data := transformItemFormData submitData in
  let request :=
    if Js.truthy itemId
    then RadarItemForm.updateRadarItem (default "" itemId) data
    else RadarItemForm.createRadarItem (Radar.id radar) data in
  RadarItemForm.submission radar itemId srv submitData
  = match srv request with
    | RadarItemForm.Resolved =>
        ([request;
          RadarItemForm.addSnackbar
            (if Js.truthy itemId then "Элемент успешно обновлен"
             else "Элемент успешно создан")
            RadarItemForm.success],
         inl tt)
    | RadarItemForm.Rejected e =>
        ([request;
          RadarItemForm.console_error "Ошибка:" e;
          RadarItemForm.addSnackbar "Возникла ошибка" RadarItemForm.alert],
         inl tt)
    end
  ∧ length (filter (λ c, RadarItemForm.service_request c = true)
              (RadarItemForm.submission radar itemId srv submitData).1) = 1.
Proof.
  intros data request.
  assert (RadarItemForm.service_request request = true) as Hreq.
  { unfold request. by destruct (Js.truthy itemId). }
  unfold RadarItemForm.submission, RadarItemForm.formSubmit,
    RadarItemForm.try_catch, RadarItemForm.seq, RadarItemForm.await,
    RadarItemForm.invoke.
  fold data. subst request.
  destruct (Js.truthy itemId); cbn [app];
    match goal with |- context [srv ?c] => destruct (srv c) end;
    cbn [app fst]; (split; [done|]);
    by rewrite filter_cons_True by done.
Qed.

Example formSubmit_update_rejected :
  RadarItemForm.submission Sample.radar_r1 (Some "i1")
    (λ _, RadarItemForm.Rejected "500") (Sample.values [])
  = ([RadarItemForm.updateRadarItem "i1"
        (transformItemFormData (Sample.values []));
      RadarItemForm.console_error "Ошибка:" "500";
      RadarItemForm.addSnackbar "Возникла ошибка" RadarItemForm.alert],
     inl tt).
Proof. reflexivity. Qed.

Example formSubmit_create_resolved :
  RadarItemForm.submission Sample.radar_r1 None
    (λ _, RadarItemForm.Resolved) (Sample.values [])
  = ([RadarItemForm.createRadarItem "r1"
        (transformItemFormData (Sample.values []));
      RadarItemForm.addSnackbar "Элемент успешно создан"
        RadarItemForm.success],
     inl tt).
Proof. reflexivity. Qed.

(** ** Gating and re-running the effect *)

(** C8.  While the catalog or the item is absent the effect returns
    without changing the state.  Running the effect again on the state it
    left gives the same outcome and state; and on any other state with the
    same two fetched values (for instance after edits of the form) it
    completes with the same form values and the same [itemRadars]. *)
Theorem reconciliation_gated_idempotent st st2 :
  (RadarItemForm.radars st = None ∨ RadarItemForm.item st = None →
   RadarItemForm.reconciliation_effect st = RadarItemForm.Done st)
  ∧ RadarItemForm.reconciliation_effect
      (RadarItemForm.final (RadarItemForm.reconciliation_effect st))
    = RadarItemForm.reconciliation_effect st
  ∧ (RadarItemForm.radars st2 = RadarItemForm.radars st →
     RadarItemForm.item st2 = RadarItemForm.item st →
     ∀ st', RadarItemForm.reconciliation_effect st = RadarItemForm.Done st' →
     is_Some (RadarItemForm.radars st) → is_Some (RadarItemForm.item st) →
     ∃ st2', RadarItemForm.reconciliation_effect st2 = RadarItemForm.Done st2'
             ∧ RadarItemForm.values st2' = RadarItemForm.values st'
             ∧ RadarItemForm.itemRadars st2' = RadarItemForm.itemRadars st').
Proof.
  split; [|split].
  - unfold RadarItemForm.reconciliation_effect.
    intros [-> | ->]; [done|]. by destruct (RadarItemForm.radars st).
  - unfold RadarItemForm.reconciliation_effect.
    destruct (RadarItemForm.radars st) as [rs|] eqn:Hrs;
      [|by cbn; rewrite Hrs].
    destruct (RadarItemForm.item st) as [it|] eqn:Hit;
      [|by cbn; rewrite Hrs, Hit].
    destruct (RadarItemForm.itemRadarsMap_of (RadarItem.radars it))
      as [m|] eqn:Hm; [|by cbn; rewrite Hrs, Hit, Hm].
    destruct (RadarItemForm.formattedItemRadars _ m) as [rows|] eqn:Hrows;
      cbn; by rewrite Hrs, Hit, Hm, Hrows.
  - intros Hrs2 Hit2 st' Hst' [rs Hrs] [it Hit].
    unfold RadarItemForm.reconciliation_effect in *.
    rewrite Hrs2, Hit2, Hrs, Hit in *.
    destruct (RadarItemForm.itemRadarsMap_of (RadarItem.radars it))
      as [m|]; [|done].
    destruct (RadarItemForm.formattedItemRadars _ m) as [rows|]; [|done].
    injection Hst' as <-. eexists. split; [done|]. done.
Qed.

Lemma reconciliation_gated_idempotent_witness :
  let st := {| RadarItemForm.radars := Some Sample.catalog_r;
               RadarItemForm.item := Some (Sample.item Sample.wire_r);
               RadarItemForm.itemRadars := [];
               RadarItemForm.values := Sample.values [Sample.empty_row] |} in
  let st2 := {| RadarItemForm.radars := Some Sample.catalog_r;
                RadarItemForm.item := Some (Sample.item Sample.wire_r);
                RadarItemForm.itemRadars := grouped Sample.wire_r;
                RadarItemForm.values := Sample.values [] |} in
  RadarItemForm.reconciliation_effect (Sample.loaded [] [Sample.empty_row])
  = RadarItemForm.Done (Sample.loaded [] [Sample.empty_row])
  ∧ ∃ st2',
      RadarItemForm.reconciliation_effect st2 = RadarItemForm.Done st2'
      ∧ RadarItemForm.values st2'
        = RadarItemForm.values
            (RadarItemForm.final (RadarItemForm.reconciliation_effect st))
      ∧ RadarItemForm.itemRadars st2' = grouped Sample.wire_r.
Proof.
  intros st st2. split.
  - destruct (reconciliation_gated_idempotent
                (Sample.loaded [] [Sample.empty_row]) st) as (Hgate & _ & _).
    apply Hgate. right. reflexivity.
  - destruct (reconciliation_gated_idempotent st st2) as (_ & _ & Hsame).
    apply (Hsame eq_refl eq_refl
             (RadarItemForm.final (RadarItemForm.reconciliation_effect st))).
    + vm_compute. reflexivity.
    + eexists. reflexivity.
    + eexists. reflexivity.
Defined.

(** ** Ring and quadrant lists *)

(** C9.  Wrapping the strings and unwrapping them again gives the list
    back.  Both transforms keep the length and the position of every
    element, for lists of any length; the maximum of four entries is
    enforced by the append buttons alone, which ignore a click once the
    list has [MAX_RINGS] (resp. [MAX_QUADRANTS]) entries and add an empty
    entry otherwise. *)
Theorem formatFields_round_trip xs fs i :
  formatFieldsToArray (formatFieldsToObjects xs) = xs
  ∧ length (formatFieldsToObjects xs) = length xs
  ∧ length (formatFieldsToArray fs) = length fs
  ∧ formatFieldsToObjects xs !! i
    = (λ x, {| FormField.value := x |}) <$> xs !! i
  ∧ formatFieldsToArray fs !! i = FormField.value <$> fs !! i
  ∧ RingFields.click_append fs
    = (if decide (length fs < MAX_RINGS)
       then fs ++ [{| FormField.value := "" |}] else fs)
  ∧ QuadrantFields.click_append fs
    = (if decide (length fs < MAX_QUADRANTS)
       then fs ++ [{| FormField.value := "" |}] else fs)
  ∧ length (formatFieldsToArray (RingFields.click_append fs))
    ≤ max MAX_RINGS (length fs)
  ∧ length (formatFieldsToArray (QuadrantFields.click_append fs))
    ≤ max MAX_QUADRANTS (length fs).
Proof.
  assert (∀ n gs,
            (if (n <=? length gs)%nat then gs
             else gs ++ [{| FormField.value := "" |}])
            = (if decide (length gs < n)
               then gs ++ [{| FormField.value := "" |}] else gs)) as Hguard.
  { intros n gs. destruct (n <=? length gs)%nat eqn:Hn.
    - apply Nat.leb_le in Hn. rewrite decide_False; [done | lia].
    - apply Nat.leb_gt in Hn. by rewrite decide_True. }
  unfold formatFieldsToArray, formatFieldsToObjects.
  split.
  { rewrite <- list_fmap_compose. apply list_fmap_id. }
  split; [apply length_fmap|]. split; [apply length_fmap|].
  split; [apply list_lookup_fmap|]. split; [apply list_lookup_fmap|].
  unfold RingFields.click_append, RingFields.append_disabled,
    QuadrantFields.click_append, QuadrantFields.append_disabled.
  rewrite !Hguard. split; [done|]. split; [done|].
  rewrite !length_fmap.
  split; case_decide; rewrite ?length_app; cbn [length]; lia.
Qed.

(** The transforms accept a list that is longer than the maximum. *)
Example formatFields_beyond_maximum :
  formatFieldsToArray (formatFieldsToObjects ["a"; "b"; "c"; "d"; "e"])
  = ["a"; "b"; "c"; "d"; "e"]
  ∧ RingFields.click_append (formatFieldsToObjects ["a"; "b"; "c"; "d"])
    = formatFieldsToObjects ["a"; "b"; "c"; "d"]
  ∧ RingFields.click_append (formatFieldsToObjects ["a"; "b"; "c"])
    = formatFieldsToObjects ["a"; "b"; "c"; ""].
Proof. by vm_compute. Qed.

(** ** Removing association rows *)

(** C10.  The remove control of a row is rendered only when the form has
    at least two association rows.  With exactly one row there is no
    remove control, so a removal leaves the state as it is; and removing
    never takes a non-empty list of rows to the empty list. *)
Theorem remove_keeps_last_row st index :
  (RadarItemForm.remove_rendered st index = true →
   2 ≤ length (RadarItemForm.fields st)
   ∧ length (RadarItemForm.fields (RadarItemForm.click_remove index st))
     = length (RadarItemForm.fields st) - 1)
  ∧ (length (RadarItemForm.fields st) = 1 →
     RadarItemForm.remove_rendered st index = false
     ∧ RadarItemForm.click_remove index st = st)
  ∧ (1 ≤ length (RadarItemForm.fields st) →
     1 ≤ length (RadarItemForm.fields (RadarItemForm.click_remove index st))).
Proof.
  assert (RadarItemForm.remove_rendered st index = true →
          index < length (RadarItemForm.fields st)
          ∧ 2 ≤ length (RadarItemForm.fields st)) as Hrendered.
  { unfold RadarItemForm.remove_rendered, RadarItemForm.row_rendered.
    rewrite !andb_true_iff, !Nat.ltb_lt. lia. }
  assert (RadarItemForm.remove_rendered st index = true →
          length (RadarItemForm.fields (RadarItemForm.click_remove index st))
          = length (RadarItemForm.fields st) - 1) as Hlen.
  { intros Hr. unfold RadarItemForm.click_remove. rewrite Hr.
    rewrite fields_set_fields. apply length_delete.
    apply lookup_lt_is_Some. by apply Hrendered. }
  split; [|split].
  - intros Hr. split; [by apply Hrendered | by apply Hlen].
  - intros Hone.
    assert (RadarItemForm.remove_rendered st index = false) as Hr.
    { destruct (RadarItemForm.remove_rendered st index); [|done].
      destruct (Hrendered eq_refl). lia. }
    unfold RadarItemForm.click_remove. by rewrite Hr.
  - intros Hpos.
    destruct (RadarItemForm.remove_rendered st index) eqn:Hr.
    + rewrite Hlen by done. destruct (Hrendered eq_refl). lia.
    + unfold RadarItemForm.click_remove. by rewrite Hr.
Qed.

Lemma remove_keeps_last_row_witness :
  (2 ≤ length
         (RadarItemForm.fields
            (Sample.loaded [] [Sample.empty_row; Sample.empty_row]))
   ∧ length
       (RadarItemForm.fields
          (RadarItemForm.click_remove 1
             (Sample.loaded [] [Sample.empty_row; Sample.empty_row])))
     = length
         (RadarItemForm.fields
            (Sample.loaded [] [Sample.empty_row; Sample.empty_row])) - 1)
  ∧ (RadarItemForm.remove_rendered (Sample.loaded [] [Sample.empty_row]) 0
     = false
     ∧ RadarItemForm.click_remove 0 (Sample.loaded [] [Sample.empty_row])
       = Sample.loaded [] [Sample.empty_row])
  ∧ 1 ≤ length
          (RadarItemForm.fields
             (RadarItemForm.click_remove 0
                (Sample.loaded [] [Sample.empty_row]))).
Proof.
  split; [|split].
  - destruct (remove_keeps_last_row
                (Sample.loaded [] [Sample.empty_row; Sample.empty_row]) 1)
      as (Hrendered & _ & _).
    apply Hrendered. reflexivity.
  - destruct (remove_keeps_last_row (Sample.loaded [] [Sample.empty_row]) 0)
      as (_ & Hone & _).
    apply Hone. reflexivity.
  - destruct (remove_keeps_last_row (Sample.loaded [] [Sample.empty_row]) 0)
      as (_ & _ & Hpos).
    apply Hpos. vm_compute. lia.
Defined.

(** * Further properties of the components *)

(** ** The grouping reduce *)

(** X1.  The grouping of the wire list throws exactly when some radar id
    names a member of [Object.prototype]. *)
Theorem itemRadarsMap_of_throws_iff W :
  RadarItemForm.itemRadarsMap_of W = Js.Throw
  ↔ ∃ id, id ∈ wire_ids W ∧ Js.inherited id = true.
Proof.
  split.
  - intros Hthrow.
    destruct (decide (Exists (λ id, Js.inherited id = true) (wire_ids W)))
      as [Hex|Hnex].
    + apply Exists_exists in Hex as (id & Hid & Hinh). by exists id.
    + rewrite itemRadarsMap_of_plain in Hthrow; [done|].
      intros id Hid. destruct (Js.inherited id) eqn:Hinh; [|done].
      exfalso. apply Hnex, Exists_exists. by exists id.
  - intros (id & Hid & Hinh).
    destruct (RadarItemForm.itemRadarsMap_of W) as [m|] eqn:Hm; [|done].
    apply itemRadarsMap_of_Normal in Hm as [Hplain _].
    rewrite (Hplain id Hid) in Hinh. done.
Qed.

Lemma quadrants_of_nonempty k W : k ∈ wire_ids W → quadrants_of k W ≠ [].
Proof.
  unfold wire_ids, quadrants_of, group_of. intros Hk.
  apply list_elem_of_fmap in Hk as (e & -> & He).
  intros Hnil. apply fmap_nil_inv in Hnil.
  eapply (filter_nil_not_elem_of _ _ e); [exact Hnil | done | done].
Qed.

Lemma length_flat_map_sum {A B} (f : A → list B) l :
  length (flat_map f l) = sum_list_with (λ x, length (f x)) l.
Proof.
  induction l as [|x l IH]; [done|].
  cbn [flat_map sum_list_with]. by rewrite length_app, IH.
Qed.

(** X2.  When the grouping completes, reading a radar id from the map
    gives the quadrants of that radar's wire entries, in wire order and
    with repetitions, and nothing for any other id.  Every stored entry
    has at least one quadrant, no key occurs twice, and the stored
    quadrants are as many as the wire entries. *)
Theorem itemRadarsMap_lookup W m :
  RadarItemForm.itemRadarsMap_of W = Js.Normal m →
  (∀ k, Js.own_get m k
        = if decide (k ∈ wire_ids W)
          then Some {| ItemRadarsEntry.quadrants := quadrants_of k W |}
          else None)
  ∧ (∀ k entry, Js.own_get m k = Some entry →
                ItemRadarsEntry.quadrants entry ≠ [])
  ∧ NoDup (Js.own_keys m)
  ∧ sum_list_with (λ p, length (ItemRadarsEntry.quadrants p.2)) m = length W.
Proof.
  intros Hm. apply itemRadarsMap_of_Normal in Hm as [_ ->].
  assert (∀ k, Js.own_get (grouped W) k
               = if decide (k ∈ wire_ids W)
                 then Some {| ItemRadarsEntry.quadrants := quadrants_of k W |}
                 else None) as Hget.
  { intros k. unfold grouped. rewrite own_get_tabulate.
    destruct (decide (k ∈ wire_ids W)) as [Hin|Hout].
    - by rewrite decide_True by (by apply elem_of_first_seen).
    - by rewrite decide_False by (by rewrite elem_of_first_seen). }
  split; [done|]. split.
  { intros k entry. rewrite Hget. case_decide; [|done].
    intros [= <-]. by apply quadrants_of_nonempty. }
  split.
  { unfold grouped. rewrite own_keys_tabulate. apply NoDup_first_seen. }
  rewrite <- (Permutation_length
                (flat_map_group_of_perm W (first_seen (wire_ids W))
                   (NoDup_first_seen _)
                   (λ id Hid, proj2 (elem_of_first_seen _ id) Hid))).
  rewrite length_flat_map_sum. unfold grouped, tabulate.
  induction (first_seen (wire_ids W)) as [|k ks IH]; [done|].
  cbn [fmap list_fmap sum_list_with snd ItemRadarsEntry.quadrants].
  rewrite IH. unfold quadrants_of. by rewrite length_fmap.
Qed.

Lemma itemRadarsMap_lookup_witness :
  (∀ k, Js.own_get (grouped Sample.wire_r) k
        = if decide (k ∈ wire_ids Sample.wire_r)
          then Some {| ItemRadarsEntry.quadrants :=
                         quadrants_of k Sample.wire_r |}
          else None)
  ∧ (∀ k entry, Js.own_get (grouped Sample.wire_r) k = Some entry →
                ItemRadarsEntry.quadrants entry ≠ [])
  ∧ NoDup (Js.own_keys (grouped Sample.wire_r))
  ∧ sum_list_with (λ p, length (ItemRadarsEntry.quadrants p.2))
      (grouped Sample.wire_r)
    = length Sample.wire_r.
Proof.
  apply (itemRadarsMap_lookup Sample.wire_r (grouped Sample.wire_r)).
  vm_compute. reflexivity.
Defined.

(** ** The catalog map against [find] *)

Lemma radarsMap_fold_other acc rs k :
  k ∉ catalog_ids rs →
  Js.own_get (RadarsMap.own (foldl RadarItemForm.radarsMap_add acc rs)) k
  = Js.own_get (RadarsMap.own acc) k.
Proof.
  revert acc. unfold catalog_ids.
  induction rs as [|r rs IH]; intros acc Hk; [done|].
  rewrite fmap_cons, not_elem_of_cons in Hk. destruct Hk as [Hne Hk].
  cbn [foldl]. rewrite IH by done. unfold RadarItemForm.radarsMap_add.
  case_decide; cbn [RadarsMap.own]; [done|].
  rewrite own_get_own_set. by rewrite decide_False by congruence.
Qed.

Lemma find_catalog_first rs1 r rs2 :
  Radar.id r ∉ catalog_ids rs1 →
  List.find (λ r', bool_decide (Radar.id r' = Radar.id r)) (rs1 ++ r :: rs2)
  = Some r.
Proof.
  unfold catalog_ids. induction rs1 as [|r0 rs1 IH]; intros Hout.
  - cbn [app List.find]. by rewrite bool_decide_eq_true_2.
  - rewrite fmap_cons, not_elem_of_cons in Hout. destruct Hout as [Hne Hout].
    cbn [app List.find]. rewrite bool_decide_eq_false_2 by congruence.
    by apply IH.
Qed.

(** X3.  In a catalog that lists a radar id more than once, the catalog
    map of the effect holds the last radar with that id (later entries
    overwrite earlier ones), while the [find] of [handleRadarChange]
    returns the first. *)
Theorem radarsMap_last_find_first rs1 r rs2 :
  (Radar.id r ≠ "__proto__" → Radar.id r ∉ catalog_ids rs2 →
   Js.own_get (RadarsMap.own (RadarItemForm.radarsMap_of (rs1 ++ r :: rs2)))
     (Radar.id r) = Some r
   ∧ RadarItemForm.radarsMap_name
       (RadarItemForm.radarsMap_of (rs1 ++ r :: rs2)) (Radar.id r)
     = Js.Normal (Some (Radar.name r)))
  ∧ (Radar.id r ∉ catalog_ids rs1 →
     List.find (λ r', bool_decide (Radar.id r' = Radar.id r))
       (rs1 ++ r :: rs2) = Some r).
Proof.
  split; [|apply find_catalog_first].
  intros Hproto Hout.
  assert (Js.own_get
            (RadarsMap.own (RadarItemForm.radarsMap_of (rs1 ++ r :: rs2)))
            (Radar.id r) = Some r) as Hown.
  { unfold RadarItemForm.radarsMap_of. rewrite foldl_app. cbn [foldl].
    rewrite radarsMap_fold_other by done.
    unfold RadarItemForm.radarsMap_add at 1.
    rewrite decide_False by done. cbn [RadarsMap.own].
    rewrite own_get_own_set. by rewrite decide_True. }
  split; [done|]. unfold RadarItemForm.radarsMap_name. by rewrite Hown.
Qed.

Lemma radarsMap_last_find_first_witness :
  (Js.own_get (RadarsMap.own (RadarItemForm.radarsMap_of SampleMore.catalog_dup))
     "r1" = Some Sample.radar_r1
   ∧ RadarItemForm.radarsMap_name
       (RadarItemForm.radarsMap_of SampleMore.catalog_dup) "r1"
     = Js.Normal (Some "Radar One"))
  ∧ List.find (λ r', bool_decide (Radar.id r' = "r1")) SampleMore.catalog_dup
    = Some SampleMore.radar_r1_old.
Proof.
  split.
  - destruct (radarsMap_last_find_first
                [SampleMore.radar_r1_old; Sample.radar_r2] Sample.radar_r1 [])
      as [Hlast _].
    apply Hlast.
    + vm_compute. discriminate.
    + vm_compute. inversion 1.
  - destruct (radarsMap_last_find_first
                [] SampleMore.radar_r1_old [Sample.radar_r2; Sample.radar_r1])
      as [_ Hfirst].
    apply Hfirst. vm_compute. inversion 1.
Defined.

(** ** Failure modes of the effect *)

Lemma map_throwing_Throw {A B} (f : A → Js.completion B) l x :
  x ∈ l → f x = Js.Throw → Js.map_throwing f l = Js.Throw.
Proof.
  intros Hx Hf. induction l as [|y l IH]; [by apply elem_of_nil in Hx|].
  cbn [Js.map_throwing].
  apply elem_of_cons in Hx as [<-|Hx].
  - by rewrite Hf.
  - destruct (f y); cbn [Js.bind]; [|done]. by rewrite IH.
Qed.

Lemma radarsMap_proto_None rs :
  "__proto__" ∉ catalog_ids rs →
  RadarsMap.proto (RadarItemForm.radarsMap_of rs) = None.
Proof.
  unfold catalog_ids. induction rs as [|r rs IH] using rev_ind; [done|].
  rewrite fmap_app, not_elem_of_app. cbn [fmap list_fmap].
  intros [Hrs Hr]. rewrite radarsMap_of_snoc.
  unfold RadarItemForm.radarsMap_add.
  rewrite decide_False; [by apply IH|].
  intros Heq. apply Hr. rewrite Heq. by left.
Qed.

(** X4.  When a radar id of the fetched item names a member of
    [Object.prototype], the effect throws before it has written anything:
    neither [itemRadars] nor the form values change. *)
Theorem effect_throws_on_inherited_id st rs it id :
  RadarItemForm.radars st = Some rs → RadarItemForm.item st = Some it →
  id ∈ wire_ids (RadarItem.radars it) → Js.inherited id = true →
  RadarItemForm.reconciliation_effect st = RadarItemForm.Crashed st.
Proof.
  intros Hrs Hit Hid Hinh. unfold RadarItemForm.reconciliation_effect.
  rewrite Hrs, Hit.
  destruct (RadarItemForm.itemRadarsMap_of (RadarItem.radars it)) as [m|]
    eqn:Hm; [|done].
  apply itemRadarsMap_of_Normal in Hm as [Hplain _].
  rewrite (Hplain id Hid) in Hinh. done.
Qed.

Lemma effect_throws_on_inherited_id_witness :
  RadarItemForm.reconciliation_effect
    (SampleMore.fetched [Sample.pair "r1" "q1"; Sample.pair "toString" "q2"])
  = RadarItemForm.Crashed
      (SampleMore.fetched [Sample.pair "r1" "q1"; Sample.pair "toString" "q2"]).
Proof.
  apply (effect_throws_on_inherited_id _ Sample.catalog_r
           (Sample.item [Sample.pair "r1" "q1"; Sample.pair "toString" "q2"])
           "toString").
  - reflexivity.
  - reflexivity.
  - vm_compute. repeat constructor.
  - reflexivity.
Defined.

(** X5.  When a radar id of the fetched item is missing from the catalog
    (no id naming a member of [Object.prototype], no catalog radar with
    the id ['__proto__']), the effect throws at the label lookup: it has
    already stored the grouped map in [itemRadars], and it leaves the form
    values as they were. *)
Theorem effect_throws_on_missing_radar st rs it id :
  RadarItemForm.radars st = Some rs → RadarItemForm.item st = Some it →
  plain_ids (RadarItem.radars it) →
  id ∈ wire_ids (RadarItem.radars it) → id ∉ catalog_ids rs →
  "__proto__" ∉ catalog_ids rs →
  RadarItemForm.reconciliation_effect st
  = RadarItemForm.Crashed
      (RadarItemForm.setItemRadars (grouped (RadarItem.radars it)) st)
  ∧ RadarItemForm.values
      (RadarItemForm.final (RadarItemForm.reconciliation_effect st))
    = RadarItemForm.values st.
Proof.
  intros Hrs Hit Hplain Hid Hout Hproto.
  assert (RadarItemForm.reconciliation_effect st
          = RadarItemForm.Crashed
              (RadarItemForm.setItemRadars (grouped (RadarItem.radars it)) st))
    as Heff.
  { unfold RadarItemForm.reconciliation_effect.
    rewrite Hrs, Hit, itemRadarsMap_of_plain by done.
    unfold RadarItemForm.formattedItemRadars.
    rewrite (map_throwing_Throw _ _ id); [done | |].
    - by apply elem_of_keys_grouped.
    - pose proof (radarsMap_own rs id) as Hown.
      unfold RadarItemForm.radarsMap_name.
      destruct (Js.own_get _ id) as [r|].
      + destruct Hown as [Hr <-]. exfalso. apply Hout.
        unfold catalog_ids. by apply list_elem_of_fmap_2.
      + rewrite decide_False by (apply inherited_proto; by apply Hplain).
        rewrite radarsMap_proto_None by done.
        rewrite (Hplain id Hid). done. }
  split; [done|]. by rewrite Heff.
Qed.

Lemma effect_throws_on_missing_radar_witness :
  RadarItemForm.reconciliation_effect (SampleMore.fetched SampleMore.wire_missing)
  = RadarItemForm.Crashed
      (RadarItemForm.setItemRadars (grouped SampleMore.wire_missing)
         (SampleMore.fetched SampleMore.wire_missing))
  ∧ RadarItemForm.values
      (RadarItemForm.final
         (RadarItemForm.reconciliation_effect
            (SampleMore.fetched SampleMore.wire_missing)))
    = RadarItemForm.values (SampleMore.fetched SampleMore.wire_missing).
Proof.
  apply (effect_throws_on_missing_radar
           (SampleMore.fetched SampleMore.wire_missing) Sample.catalog_r
           (Sample.item SampleMore.wire_missing) "r9").
  - reflexivity.
  - reflexivity.
  - apply plain_ids_Forall. vm_compute. repeat constructor.
  - vm_compute. repeat constructor.
  - compute_done.
  - compute_done.
Defined.

(** ** The rows after a completed effect *)

(** X6.  After the effect has completed on a catalog that contains every
    radar id of the item (none naming a member of [Object.prototype]),
    the association rows are at most as many as the radars of the catalog
    and at most as many as the wire entries, every row has at least one
    quadrant option, and when the rows are as many as the radars the add
    action is disabled. *)
Theorem effect_rows_within_cap st rs it :
  RadarItemForm.radars st = Some rs → RadarItemForm.item st = Some it →
  covers rs (RadarItem.radars it) → plain_ids (RadarItem.radars it) →
  ∃ st',
    RadarItemForm.reconciliation_effect st = RadarItemForm.Done st'
    ∧ length (RadarItemForm.fields st') ≤ length rs
    ∧ length (RadarItemForm.fields st') ≤ length (RadarItem.radars it)
    ∧ Forall (λ row, FormRadar.quadrants row ≠ []) (RadarItemForm.fields st')
    ∧ (length (RadarItemForm.fields st') = length rs →
       RadarItemForm.append_disabled st' = true).
Proof.
  intros Hrs Hit Hcov Hplain. set (W := RadarItem.radars it) in *.
  destruct (formattedItemRadars_grouped rs W Hcov Hplain) as (rows & Hrows & HF).
  destruct (reconciliation_effect_Done st rs it (grouped W) rows)
    as (st' & Hst' & Hfields & _ & Hrs' & _); try done.
  { by apply itemRadarsMap_of_plain. }
  exists st'. rewrite Hfields. split; [done|].
  assert (length rows = length (first_seen (wire_ids W))) as Hlen.
  { rewrite <- (Forall2_length _ _ _ HF). by rewrite key_order_perm. }
  split.
  { rewrite Hlen. unfold catalog_ids in *.
    rewrite <- (length_fmap Radar.id rs). apply submseteq_length.
    apply NoDup_submseteq; [apply NoDup_first_seen|].
    intros k Hk. apply Hcov. by apply elem_of_first_seen. }
  split.
  { rewrite Hlen. unfold wire_ids. rewrite <- (length_fmap ItemRadar.id W).
    apply submseteq_length.
    apply NoDup_submseteq; [apply NoDup_first_seen|].
    intros k Hk. by apply elem_of_first_seen. }
  split.
  { apply Forall_forall. intros row Hrow.
    apply list_elem_of_lookup in Hrow as [i Hi].
    destruct (Forall2_lookup_r _ _ _ _ _ HF Hi) as (k & Hk & _ & _ & Hq).
    rewrite Hq. intros Hnil. apply fmap_nil_inv in Hnil.
    apply (quadrants_of_nonempty k W); [|done].
    apply elem_of_first_seen, elem_of_key_order.
    by eapply list_elem_of_lookup_2. }
  intros Heq. unfold RadarItemForm.append_disabled.
  rewrite Hrs'. unfold RadarItemForm.fields in Hfields. 
  unfold RadarItemForm.fields. rewrite Hfields, Heq. apply Nat.eqb_refl.
Qed.

Lemma effect_rows_within_cap_witness :
  ∃ st',
    RadarItemForm.reconciliation_effect (SampleMore.fetched Sample.wire_r)
    = RadarItemForm.Done st'
    ∧ length (RadarItemForm.fields st') ≤ length Sample.catalog_r
    ∧ length (RadarItemForm.fields st') ≤ length Sample.wire_r
    ∧ Forall (λ row, FormRadar.quadrants row ≠ []) (RadarItemForm.fields st')
    ∧ (length (RadarItemForm.fields st') = length Sample.catalog_r →
       RadarItemForm.append_disabled st' = true).
Proof.
  apply (effect_rows_within_cap (SampleMore.fetched Sample.wire_r)
           Sample.catalog_r (Sample.item Sample.wire_r)).
  - reflexivity.
  - reflexivity.
  - apply covers_Forall. vm_compute. repeat constructor.
  - apply plain_ids_Forall. vm_compute. repeat constructor.
Defined.

(** ** Re-selecting a radar *)

Lemma set_fields_id st :
  RadarItemForm.set_fields (RadarItemForm.fields st) st = st.
Proof. by destruct st as [? ? ? []]. Qed.

Lemma set_fields_set_fields rows rows' st :
  RadarItemForm.set_fields rows (RadarItemForm.set_fields rows' st)
  = RadarItemForm.set_fields rows st.
Proof. done. Qed.

Lemma catalog_ids_inj rs r r' :
  NoDup (catalog_ids rs) → r ∈ rs → r' ∈ rs → Radar.id r = Radar.id r' →
  r = r'.
Proof.
  unfold catalog_ids. induction rs as [|r0 rs IH]; intros Hnd Hr Hr' Hid.
  { by apply elem_of_nil in Hr. }
  rewrite fmap_cons in Hnd. apply NoDup_cons in Hnd as [Hout Hnd].
  apply elem_of_cons in Hr as [->|Hr]; apply elem_of_cons in Hr' as [->|Hr'].
  - done.
  - exfalso. apply Hout. rewrite Hid. by apply list_elem_of_fmap_2.
  - exfalso. apply Hout. rewrite <- Hid. by apply list_elem_of_fmap_2.
  - by apply IH.
Qed.

Lemma find_catalog_None rs id :
  id ∉ catalog_ids rs →
  List.find (λ r, bool_decide (Radar.id r = id)) rs = None.
Proof.
  unfold catalog_ids. induction rs as [|r rs IH]; [done|].
  rewrite fmap_cons, not_elem_of_cons. intros [Hne Hout].
  cbn [List.find]. rewrite bool_decide_eq_false_2 by congruence.
  by apply IH.
Qed.

(** X7.  After the effect has completed on a catalog with pairwise
    distinct radar ids, selecting in any row the radar that the row
    already shows changes nothing: the handler finds the same radar, the
    same label and the persisted quadrants the row was loaded with. *)
Theorem reselect_after_load_unchanged st rs it :
  RadarItemForm.radars st = Some rs → RadarItemForm.item st = Some it →
  covers rs (RadarItem.radars it) → plain_ids (RadarItem.radars it) →
  NoDup (catalog_ids rs) →
  ∃ st',
    RadarItemForm.reconciliation_effect st = RadarItemForm.Done st'
    ∧ ∀ index row,
        RadarItemForm.fields st' !! index = Some row →
        RadarItemForm.handleRadarChange index (Some (FormRadar.radarId row)) st'
        = st'.
Proof.
  intros Hrs Hit Hcov Hplain Hnd. set (W := RadarItem.radars it) in *.
  destruct (formattedItemRadars_grouped rs W Hcov Hplain) as (rows & Hrows & HF).
  destruct (reconciliation_effect_Done st rs it (grouped W) rows)
    as (st' & Hst' & Hfields & Hmap & Hrs' & _); try done.
  { by apply itemRadarsMap_of_plain. }
  exists st'. split; [done|]. intros index row Hrow.
  rewrite Hfields in Hrow.
  destruct (Forall2_lookup_r _ _ _ _ _ HF Hrow) as (k & Hk & Hid & Hlabel & Hq).
  destruct Hlabel as (r & Hr & Hrid & Hlabel).
  assert (k ∈ wire_ids W) as HkW.
  { apply elem_of_first_seen, elem_of_key_order.
    by eapply list_elem_of_lookup_2. }
  unfold RadarItemForm.handleRadarChange. rewrite Hrs', Hid.
  destruct (negb (Js.truthy (Some k))); [done|].
  destruct (find_catalog rs k (Hcov k HkW)) as (r' & Hfind & Hr' & Hrid').
  rewrite Hfind.
  assert (r' = r) as -> by (apply (catalog_ids_inj rs); congruence).
  rewrite Hmap, (get_grouped W k HkW). unfold RadarItemForm.setRow.
  assert ({| FormRadar.radarId := k; FormRadar.label := Some (Radar.name r);
             FormRadar.quadrants := formatSelectData (Some (quadrants_of k W)) |}
          = row) as Heq.
  { destruct row as [rid rlabel rq]. cbn in Hid, Hlabel, Hq. by subst. }
  cbn [default id ItemRadarsEntry.quadrants]. rewrite Heq.
  rewrite Hfields, (list_insert_id _ _ _ Hrow), <- Hfields.
  apply set_fields_id.
Qed.

Lemma reselect_after_load_unchanged_witness :
  ∃ st',
    RadarItemForm.reconciliation_effect (SampleMore.fetched Sample.wire_r)
    = RadarItemForm.Done st'
    ∧ ∀ index row,
        RadarItemForm.fields st' !! index = Some row →
        RadarItemForm.handleRadarChange index (Some (FormRadar.radarId row)) st'
        = st'.
Proof.
  apply (reselect_after_load_unchanged (SampleMore.fetched Sample.wire_r)
           Sample.catalog_r (Sample.item Sample.wire_r)).
  - reflexivity.
  - reflexivity.
  - apply covers_Forall. vm_compute. repeat constructor.
  - apply plain_ids_Forall. vm_compute. repeat constructor.
  - compute_done.
Defined.

(** X8.  [handleRadarChange] writes nothing when no radar id is passed,
    when the id is the empty string, when the catalog has not been
    fetched, or when no catalog radar has the id. *)
Theorem handleRadarChange_without_effect st index selected :
  Js.truthy selected = false
  ∨ RadarItemForm.radars st = None
  ∨ (∃ id rs, selected = Some id ∧ RadarItemForm.radars st = Some rs
              ∧ id ∉ catalog_ids rs) →
  RadarItemForm.handleRadarChange index selected st = st.
Proof.
  unfold RadarItemForm.handleRadarChange.
  intros [Hfalsy | [Hnone | (id & rs & -> & Hrs & Hout)]].
  - destruct selected as [id|]; [|done].
    destruct (RadarItemForm.radars st); [|done]. by rewrite Hfalsy.
  - rewrite Hnone. by destruct selected.
  - rewrite Hrs. destruct (negb (Js.truthy (Some id))); [done|].
    by rewrite find_catalog_None.
Qed.

Lemma handleRadarChange_without_effect_witness :
  RadarItemForm.handleRadarChange 0 (Some "r9")
    (Sample.loaded [] [Sample.empty_row])
  = Sample.loaded [] [Sample.empty_row]
  ∧ RadarItemForm.handleRadarChange 0 (Some "")
      (Sample.loaded [] [Sample.empty_row])
    = Sample.loaded [] [Sample.empty_row].
Proof.
  split.
  - apply (handleRadarChange_without_effect
             (Sample.loaded [] [Sample.empty_row]) 0 (Some "r9")).
    right. right. exists "r9", Sample.catalog_r.
    split; [reflexivity|]. split; [reflexivity|]. compute_done.
  - apply (handleRadarChange_without_effect
             (Sample.loaded [] [Sample.empty_row]) 0 (Some "")).
    left. reflexivity.
Defined.

Lemma row_rendered_iff st index :
  RadarItemForm.row_rendered st index = true
  ↔ is_Some (RadarItemForm.radars st)
    ∧ index < length (RadarItemForm.fields st).
Proof.
  unfold RadarItemForm.row_rendered.
  by rewrite andb_true_iff, bool_decide_eq_true, Nat.ltb_lt.
Qed.

(** X9.  On a rendered row, selecting a radar of the catalog discards
    whatever quadrants the user had chosen in that row before, and
    selecting the same radar twice is the same as selecting it once. *)
Theorem select_radar_overrides_edits st rs index id chosen :
  RadarItemForm.radars st = Some rs →
  index < length (RadarItemForm.fields st) →
  Js.truthy (Some id) = true → id ∈ catalog_ids rs →
  RadarItemForm.select_radar index (Some id)
    (RadarItemForm.select_quadrants index chosen st)
  = RadarItemForm.select_radar index (Some id) st
  ∧ RadarItemForm.select_radar index (Some id)
      (RadarItemForm.select_radar index (Some id) st)
    = RadarItemForm.select_radar index (Some id) st.
Proof.
  intros Hrs Hindex Htruthy Hin.
  destruct (find_catalog rs id Hin) as (r & Hfind & _ & _).
  assert (∀ st0, RadarItemForm.radars st0 = Some rs →
            index < length (RadarItemForm.fields st0) →
            RadarItemForm.select_radar index (Some id) st0
            = RadarItemForm.set_fields
                (<[index :=
                     {| FormRadar.radarId := id;
                        FormRadar.label := Some (Radar.name r);
                        FormRadar.quadrants :=
                          formatSelectData
                            (Some
                               (default (Radar.quadrants r)
                                  (match Js.get (RadarItemForm.itemRadars st0) id
                                   with
                                   | Js.Own entry =>
                                       Some (ItemRadarsEntry.quadrants entry)
                                   | _ => None
                                   end))) |}]>
                   (RadarItemForm.fields st0))
                st0) as Hsel.
  { intros st0 Hrs0 Hindex0. unfold RadarItemForm.select_radar.
    rewrite (proj2 (row_rendered_iff st0 index)) by (by rewrite Hrs0).
    unfold RadarItemForm.handleRadarChange.
    by rewrite Hrs0, Htruthy, Hfind. }
  split.
  - unfold RadarItemForm.select_quadrants.
    rewrite (proj2 (row_rendered_iff st index)) by (by rewrite Hrs).
    rewrite !Hsel; try done.
    + rewrite set_fields_set_fields, fields_set_fields. cbn [RadarItemForm.itemRadars RadarItemForm.set_fields RadarItemForm.reset].
      f_equal. rewrite !list_insert_alter. apply list_alter_alter_eq.
    + by rewrite fields_set_fields, length_alter.
  - rewrite (Hsel st) by done. rewrite Hsel.
    + rewrite set_fields_set_fields, fields_set_fields.
      cbn [RadarItemForm.itemRadars RadarItemForm.set_fields RadarItemForm.reset].
      by rewrite list_insert_insert_eq.
    + done.
    + by rewrite fields_set_fields, length_insert.
Qed.

Lemma select_radar_overrides_edits_witness :
  let st := Sample.loaded (grouped Sample.wire_r) [Sample.empty_row] in
  RadarItemForm.select_radar 0 (Some "r1")
    (RadarItemForm.select_quadrants 0 (formatSelectData (Some ["q3"])) st)
  = RadarItemForm.select_radar 0 (Some "r1") st
  ∧ RadarItemForm.select_radar 0 (Some "r1")
      (RadarItemForm.select_radar 0 (Some "r1") st)
    = RadarItemForm.select_radar 0 (Some "r1") st.
Proof.
  intros st.
  apply (select_radar_overrides_edits st Sample.catalog_r 0 "r1"
           (formatSelectData (Some ["q3"]))).
  - reflexivity.
  - vm_compute. lia.
  - reflexivity.
  - vm_compute. repeat constructor.
Defined.

(** ** The options of the quadrant combobox *)

(** X10.  After a radar of the catalog has been selected in a row for
    which [itemRadars] has no entry, the quadrants selected in the row are
    exactly the options its combobox offers: all quadrants of the chosen
    radar, in the radar's order. *)
Theorem unassociated_radar_selects_all_options st rs index id :
  RadarItemForm.radars st = Some rs →
  index < length (RadarItemForm.fields st) →
  Js.truthy (Some id) = true → id ∈ catalog_ids rs →
  Js.own_get (RadarItemForm.itemRadars st) id = None →
  FormRadar.quadrants
    <$> RadarItemForm.fields
          (RadarItemForm.handleRadarChange index (Some id) st) !! index
  = Some (RadarItemFormView.quadrant_items
            (RadarItemForm.handleRadarChange index (Some id) st) index).
Proof.
  intros Hrs Hindex Htruthy Hin Hget.
  destruct (find_catalog rs id Hin) as (r & Hfind & _ & _).
  assert (RadarItemForm.handleRadarChange index (Some id) st
          = RadarItemForm.setRow index
              {| FormRadar.radarId := id;
                 FormRadar.label := Some (Radar.name r);
                 FormRadar.quadrants :=
                   formatSelectData (Some (Radar.quadrants r)) |} st) as ->.
  { unfold RadarItemForm.handleRadarChange, Js.get.
    rewrite Hrs, Htruthy, Hfind, Hget. by destruct (Js.inherited id). }
  unfold RadarItemFormView.quadrant_items, RadarItemForm.setRow.
  rewrite fields_set_fields, radars_set_fields, Hrs.
  rewrite list_lookup_insert_eq by done.
  cbn [fmap option_fmap option_map FormRadar.radarId FormRadar.quadrants
       mbind option_bind].
  assert (List.find (λ r0, bool_decide (Some (Radar.id r0) = Some id)) rs
          = Some r) as ->; [|done].
  rewrite <- Hfind. clear. induction rs as [|r0 rs IH]; [done|].
  cbn [List.find]. rewrite IH.
  destruct (decide (Radar.id r0 = id)) as [Heq|Hne].
  - by rewrite !bool_decide_eq_true_2 by congruence.
  - by rewrite !bool_decide_eq_false_2 by congruence.
Qed.

Lemma unassociated_radar_selects_all_options_witness :
  FormRadar.quadrants
    <$> RadarItemForm.fields
          (RadarItemForm.handleRadarChange 0 (Some "r2")
             (Sample.loaded [] [Sample.empty_row])) !! 0
  = Some (RadarItemFormView.quadrant_items
            (RadarItemForm.handleRadarChange 0 (Some "r2")
               (Sample.loaded [] [Sample.empty_row])) 0).
Proof.
  apply (unassociated_radar_selects_all_options
           (Sample.loaded [] [Sample.empty_row]) Sample.catalog_r 0 "r2").
  - reflexivity.
  - vm_compute. lia.
  - reflexivity.
  - vm_compute. repeat constructor.
  - reflexivity.
Defined.

(** ** User actions on the association rows *)

Lemma user_step_Done st ev :
  RadarItemForm.user_event ev = true →
  ∃ st', RadarItemForm.step st ev = RadarItemForm.Done st'.
Proof. destruct ev; try done; intros _; by eexists. Qed.

Lemma handleRadarChange_frame index selected st :
  RadarItemForm.item (RadarItemForm.handleRadarChange index selected st)
  = RadarItemForm.item st
  ∧ RadarItemForm.itemRadars (RadarItemForm.handleRadarChange index selected st)
    = RadarItemForm.itemRadars st
  ∧ RadarItemFormData.with_radars
      (RadarItemForm.values (RadarItemForm.handleRadarChange index selected st))
      []
    = RadarItemFormData.with_radars (RadarItemForm.values st) [].
Proof.
  unfold RadarItemForm.handleRadarChange.
  destruct selected as [id|]; [|done].
  destruct (RadarItemForm.radars st) as [rs|]; [|done].
  destruct (negb (Js.truthy (Some id))); [done|].
  by destruct (List.find _ rs).
Qed.

(** What a user event leaves alone: the two query results, [itemRadars]
    and every form value other than the association rows. *)
Lemma user_step_frame st st' ev :
  RadarItemForm.user_event ev = true →
  RadarItemForm.step st ev = RadarItemForm.Done st' →
  RadarItemForm.radars st' = RadarItemForm.radars st
  ∧ RadarItemForm.item st' = RadarItemForm.item st
  ∧ RadarItemForm.itemRadars st' = RadarItemForm.itemRadars st
  ∧ RadarItemFormData.with_radars (RadarItemForm.values st') []
    = RadarItemFormData.with_radars (RadarItemForm.values st) [].
Proof.
  intros Hev Hstep.
  destruct ev as [| | |index|index selected|index chosen]; try done;
    cbn [RadarItemForm.step] in Hstep; injection Hstep as <-.
  - unfold RadarItemForm.click_append.
    by destruct (RadarItemForm.append_disabled st).
  - unfold RadarItemForm.click_remove.
    by destruct (RadarItemForm.remove_rendered st index).
  - unfold RadarItemForm.select_radar.
    destruct (RadarItemForm.row_rendered st index); [|done].
    destruct (handleRadarChange_length index selected st) as [Hr _].
    destruct (handleRadarChange_frame index selected st) as (Hi & Hm & Hv).
    done.
  - unfold RadarItemForm.select_quadrants.
    by destruct (RadarItemForm.row_rendered st index).
Qed.

(** X11.  User actions on the association rows never throw and only ever
    change the association rows: after any sequence of them the catalog,
    the item, [itemRadars] and all other form values are what they
    were. *)
Theorem user_events_only_change_rows st evs :
  Forall (λ ev, RadarItemForm.user_event ev = true) evs →
  ∃ st',
    RadarItemForm.run st evs = RadarItemForm.Done st'
    ∧ RadarItemForm.radars st' = RadarItemForm.radars st
    ∧ RadarItemForm.item st' = RadarItemForm.item st
    ∧ RadarItemForm.itemRadars st' = RadarItemForm.itemRadars st
    ∧ RadarItemFormData.with_radars (RadarItemForm.values st') []
      = RadarItemFormData.with_radars (RadarItemForm.values st) [].
Proof.
  intros Hevs. revert st. induction Hevs as [|ev evs Hev _ IH]; intros st.
  - by exists st.
  - destruct (user_step_Done st ev Hev) as [st1 Hst1].
    destruct (user_step_frame st st1 ev Hev Hst1) as (Hr & Hi & Hm & Hv).
    destruct (IH st1) as (st' & Hrun & Hr' & Hi' & Hm' & Hv').
    exists st'. cbn [RadarItemForm.run]. rewrite Hst1.
    split; [done|]. rewrite Hr', Hi', Hm', Hv'. done.
Qed.

Lemma user_events_only_change_rows_witness :
  ∃ st',
    RadarItemForm.run (Sample.loaded (grouped Sample.wire_r) [Sample.empty_row])
      [RadarItemForm.ClickAppend; RadarItemForm.SelectRadar 1 (Some "r2");
       RadarItemForm.ClickRemove 0]
    = RadarItemForm.Done st'
    ∧ RadarItemForm.radars st' = Some Sample.catalog_r
    ∧ RadarItemForm.item st' = None
    ∧ RadarItemForm.itemRadars st' = grouped Sample.wire_r
    ∧ RadarItemFormData.with_radars (RadarItemForm.values st') []
      = Sample.values [].
Proof.
  apply (user_events_only_change_rows
           (Sample.loaded (grouped Sample.wire_r) [Sample.empty_row])
           [RadarItemForm.ClickAppend; RadarItemForm.SelectRadar 1 (Some "r2");
            RadarItemForm.ClickRemove 0]).
  repeat constructor.
Defined.

(** X12.  From a form with at least one association row, no sequence of
    user actions leaves the form without a row. *)
Theorem user_events_keep_a_row st evs :
  1 ≤ length (RadarItemForm.fields st) →
  Forall (λ ev, RadarItemForm.user_event ev = true) evs →
  ∃ st', RadarItemForm.run st evs = RadarItemForm.Done st'
         ∧ 1 ≤ length (RadarItemForm.fields st').
Proof.
  intros Hpos Hevs. revert st Hpos.
  induction Hevs as [|ev evs Hev _ IH]; intros st Hpos; [by exists st|].
  assert (∃ st1, RadarItemForm.step st ev = RadarItemForm.Done st1
                 ∧ 1 ≤ length (RadarItemForm.fields st1))
    as (st1 & Hst1 & Hpos1).
  { destruct ev as [| | |index|index selected|index chosen]; try done;
      cbn [RadarItemForm.step]; eexists; (split; [done|]).
    - unfold RadarItemForm.click_append.
      destruct (RadarItemForm.append_disabled st); [done|].
      rewrite fields_set_fields, length_app. lia.
    - unfold RadarItemForm.click_remove.
      destruct (RadarItemForm.remove_rendered st index) eqn:Hr; [|done].
      unfold RadarItemForm.remove_rendered in Hr.
      apply andb_true_iff in Hr as [Hrow Hlen].
      apply row_rendered_iff in Hrow as [_ Hindex].
      apply Nat.ltb_lt in Hlen.
      rewrite fields_set_fields, length_delete by (by apply lookup_lt_is_Some).
      lia.
    - unfold RadarItemForm.select_radar.
      destruct (RadarItemForm.row_rendered st index); [|done].
      by destruct (handleRadarChange_length index selected st) as [_ ->].
    - unfold RadarItemForm.select_quadrants.
      destruct (RadarItemForm.row_rendered st index); [|done].
      by rewrite fields_set_fields, length_alter. }
  cbn [RadarItemForm.run]. rewrite Hst1. by apply IH.
Qed.

Lemma user_events_keep_a_row_witness :
  ∃ st',
    RadarItemForm.run (Sample.loaded [] [Sample.empty_row])
      [RadarItemForm.ClickRemove 0; RadarItemForm.ClickAppend;
       RadarItemForm.ClickRemove 0; RadarItemForm.ClickRemove 0]
    = RadarItemForm.Done st'
    ∧ 1 ≤ length (RadarItemForm.fields st').
Proof.
  apply (user_events_keep_a_row (Sample.loaded [] [Sample.empty_row])
           [RadarItemForm.ClickRemove 0; RadarItemForm.ClickAppend;
            RadarItemForm.ClickRemove 0; RadarItemForm.ClickRemove 0]).
  - vm_compute. lia.
  - repeat constructor.
Defined.

(** ** Before the catalog arrives *)

(** X13.  While the catalog has not been fetched no row is rendered, so
    the only user action with an effect is the add button, which is
    enabled: after any sequence of user actions the rows are the previous
    rows followed by one empty row per click on the add button. *)
Theorem only_appends_before_catalog st evs :
  RadarItemForm.radars st = None →
  Forall (λ ev, RadarItemForm.user_event ev = true) evs →
  ∃ st',
    RadarItemForm.run st evs = RadarItemForm.Done st'
    ∧ RadarItemForm.radars st' = None
    ∧ RadarItemForm.fields st'
      = RadarItemForm.fields st
          ++ replicate (RadarItemFormView.appends evs)
               {| FormRadar.radarId := ""; FormRadar.label := Some "";
                  FormRadar.quadrants := [] |}.
Proof.
  intros Hrs Hevs. revert st Hrs.
  induction Hevs as [|ev evs Hev _ IH]; intros st Hrs.
  { exists st. split; [done|]. split; [done|]. by rewrite app_nil_r. }
  assert (∀ index, RadarItemForm.row_rendered st index = false) as Hrow.
  { intros index. unfold RadarItemForm.row_rendered. by rewrite Hrs. }
  unfold RadarItemFormView.appends in *.
  destruct ev as [| | |index|index selected|index chosen]; try done;
    cbn [RadarItemForm.run RadarItemForm.step].
  - destruct (click_append_unfetched st Hrs) as [Hrs1 Hf1].
    destruct (IH _ Hrs1) as (st' & Hrun & Hrs' & Hf').
    exists st'. split; [done|]. split; [done|].
    rewrite Hf', Hf1, filter_cons_True by done.
    cbn [length replicate]. by rewrite <- app_assoc.
  - unfold RadarItemForm.click_remove, RadarItemForm.remove_rendered.
    rewrite Hrow. cbn [andb].
    destruct (IH _ Hrs) as (st' & Hrun & Hrs' & Hf').
    exists st'. by rewrite filter_cons_False by done.
  - unfold RadarItemForm.select_radar. rewrite Hrow.
    destruct (IH _ Hrs) as (st' & Hrun & Hrs' & Hf').
    exists st'. by rewrite filter_cons_False by done.
  - unfold RadarItemForm.select_quadrants. rewrite Hrow.
    destruct (IH _ Hrs) as (st' & Hrun & Hrs' & Hf').
    exists st'. by rewrite filter_cons_False by done.
Qed.

Lemma only_appends_before_catalog_witness :
  ∃ st',
    RadarItemForm.run (RadarItemForm.mount (Sample.values [Sample.empty_row]))
      [RadarItemForm.ClickRemove 0; RadarItemForm.ClickAppend;
       RadarItemForm.SelectRadar 0 (Some "r1"); RadarItemForm.ClickAppend]
    = RadarItemForm.Done st'
    ∧ RadarItemForm.radars st' = None
    ∧ RadarItemForm.fields st'
      = [Sample.empty_row] ++ replicate 2 Sample.empty_row.
Proof.
  apply (only_appends_before_catalog
           (RadarItemForm.mount (Sample.values [Sample.empty_row]))
           [RadarItemForm.ClickRemove 0; RadarItemForm.ClickAppend;
            RadarItemForm.SelectRadar 0 (Some "r1");
            RadarItemForm.ClickAppend]).
  - reflexivity.
  - repeat constructor.
Defined.

(** ** A form without an item *)



(** ** The ring and quadrant editors *)

Section editors.
Variable max : nat.

(** The append guard shared by the two editors, for the maximum [max]. *)
Variable click_append : list FormField.t → list FormField.t.
Hypothesis click_append_spec :
  ∀ fs, click_append fs
        = if (max <=? length fs)%nat then fs
          else fs ++ [{| FormField.value := "" |}].

Lemma editor_step_capped fs ev :
  length (FieldArray.step click_append (λ i l, delete i l) fs ev)
  ≤ Nat.max max (length fs).
Proof.
  destruct ev as [|index]; cbn [FieldArray.step].
  - rewrite click_append_spec.
    destruct (max <=? length fs)%nat eqn:Hmax; [lia|].
    apply Nat.leb_gt in Hmax. rewrite length_app. cbn [length]. lia.
  - etrans; [apply length_delete_le | lia].
Qed.

Lemma editor_run_capped fs evs :
  length (FieldArray.run click_append (λ i l, delete i l) fs evs)
  ≤ Nat.max max (length fs).
Proof.
  unfold FieldArray.run. revert fs.
  induction evs as [|ev evs IH]; intros fs; cbn [foldl]; [lia|].
  etrans; [apply IH|]. pose proof (editor_step_capped fs ev). lia.
Qed.
End editors.

(** X15.  In the ring editor, no sequence of clicks on the append and
    remove buttons makes the list longer than the larger of [MAX_RINGS]
    and its initial length; a list of at most four rings stays at most
    four rings long. *)
Theorem ring_editor_capped fs evs :
  length (FieldArray.run RingFields.click_append RingFields.click_remove fs evs)
  ≤ Nat.max MAX_RINGS (length fs).
Proof. by apply (editor_run_capped MAX_RINGS RingFields.click_append). Qed.

(** X16.  In the quadrant editor, no sequence of clicks on the append and
    remove buttons makes the list longer than the larger of
    [MAX_QUADRANTS] and its initial length. *)
Theorem quadrant_editor_capped fs evs :
  length
    (FieldArray.run QuadrantFields.click_append QuadrantFields.click_remove
       fs evs)
  ≤ Nat.max MAX_QUADRANTS (length fs).
Proof.
  by apply (editor_run_capped MAX_QUADRANTS QuadrantFields.click_append).
Qed.

(** X17.  The editor buttons act on the unwrapped list of names as list
    operations: appending adds one empty name at the end when the list is
    below the maximum (and nothing otherwise), removing deletes the name
    at that position; every other name keeps its value and its relative
    order. *)
Theorem editor_actions_on_names fs index :
  formatFieldsToArray (RingFields.click_append fs)
  = formatFieldsToArray fs ++ (if decide (length fs < MAX_RINGS) then [""] else [])
  ∧ formatFieldsToArray (QuadrantFields.click_append fs)
    = formatFieldsToArray fs
        ++ (if decide (length fs < MAX_QUADRANTS) then [""] else [])
  ∧ formatFieldsToArray (RingFields.click_remove index fs)
    = delete index (formatFieldsToArray fs)
  ∧ formatFieldsToArray (QuadrantFields.click_remove index fs)
    = delete index (formatFieldsToArray fs).
Proof.
  unfold formatFieldsToArray, RingFields.click_append,
    RingFields.append_disabled, QuadrantFields.click_append,
    QuadrantFields.append_disabled, RingFields.click_remove,
    QuadrantFields.click_remove.
  assert (∀ n,
            (λ f, FormField.value f)
              <$> (if (n <=? length fs)%nat then fs
                   else fs ++ [{| FormField.value := "" |}])
            = ((λ f, FormField.value f) <$> fs)
                ++ (if decide (length fs < n) then [""] else [])) as Happ.
  { intros n. destruct (n <=? length fs)%nat eqn:Hn.
    - apply Nat.leb_le in Hn. rewrite decide_False by lia.
      by rewrite app_nil_r.
    - apply Nat.leb_gt in Hn. rewrite decide_True by done.
      by rewrite fmap_app. }
  rewrite !Happ, !list_fmap_delete. done.
Qed.

(** X18.  The ring and quadrant editors have no lower bound: clicking the
    remove button of the first entry once per entry empties the list. *)
Theorem editor_can_be_emptied fs :
  FieldArray.run RingFields.click_append RingFields.click_remove fs
    (replicate (length fs) (FieldArray.Remove 0)) = []
  ∧ FieldArray.run QuadrantFields.click_append QuadrantFields.click_remove fs
      (replicate (length fs) (FieldArray.Remove 0)) = [].
Proof.
  unfold FieldArray.run.
  split; induction fs as [|f fs IH]; try done; exact IH.
Qed.

(** ** Above the cap *)

(** X19.  The add button compares the two lengths for equality only: in a
    state whose association rows outnumber the radars of the fetched
    catalog it is enabled and stays enabled, so [n] clicks add [n]
    rows. *)
Theorem append_unbounded_above_cap st rs n :
  RadarItemForm.radars st = Some rs →
  length rs < length (RadarItemForm.fields st) →
  ∃ st',
    RadarItemForm.run st (replicate n RadarItemForm.ClickAppend)
    = RadarItemForm.Done st'
    ∧ RadarItemForm.radars st' = Some rs
    ∧ length (RadarItemForm.fields st') = length (RadarItemForm.fields st) + n
    ∧ RadarItemForm.append_disabled st' = false.
Proof.
  revert st. induction n as [|n IH]; intros st Hrs Hlt.
  - exists st. split; [done|]. split; [done|]. split; [lia|].
    unfold RadarItemForm.append_disabled. rewrite Hrs.
    apply Nat.eqb_neq. lia.
  - assert (RadarItemForm.append_disabled st = false) as Hen.
    { unfold RadarItemForm.append_disabled. rewrite Hrs.
      apply Nat.eqb_neq. lia. }
    destruct (IH (RadarItemForm.click_append st)) as (st' & Hrun & Hrs' & Hlen & Hdis).
    + unfold RadarItemForm.click_append. by rewrite Hen, radars_set_fields.
    + unfold RadarItemForm.click_append.
      rewrite Hen, fields_set_fields, length_app. cbn [length]. lia.
    + exists st'. cbn [replicate RadarItemForm.run RadarItemForm.step].
      split; [done|]. split; [done|]. split; [|done].
      rewrite Hlen. unfold RadarItemForm.click_append.
      rewrite Hen, fields_set_fields, length_app. cbn [length]. lia.
Qed.

Lemma append_unbounded_above_cap_witness :
  ∃ st',
    RadarItemForm.run
      (Sample.loaded []
         [Sample.empty_row; Sample.empty_row; Sample.empty_row])
      (replicate 4 RadarItemForm.ClickAppend)
    = RadarItemForm.Done st'
    ∧ RadarItemForm.radars st' = Some Sample.catalog_r
    ∧ length (RadarItemForm.fields st')
      = length
          (RadarItemForm.fields
             (Sample.loaded []
                [Sample.empty_row; Sample.empty_row; Sample.empty_row])) + 4
    ∧ RadarItemForm.append_disabled st' = false.
Proof.
  apply (append_unbounded_above_cap
           (Sample.loaded []
              [Sample.empty_row; Sample.empty_row; Sample.empty_row])
           Sample.catalog_r 4).
  - reflexivity.
  - vm_compute. lia.
Defined.
